(** * The qdrant vector store, the vertexai embedding wrapper and the
      redis metadata-search command of langchaingo

    A shallow embedding of [vectorstores/qdrant/qdrant.go], of
    [LLM.CreateEmbedding] (package [vertexai]) and of
    [IndexVectorSearch.AsMetadataSearchCommand] (package [redisvector]).

    Go maps are reference values, so documents carry a reference into a
    heap of maps; the embedder, the deduplication predicate and the
    backend RPCs are external capabilities that thread an abstract
    [World]; every invocation of one of them is appended to a call log. *)

From Stdlib Require Import ZArith Floats.SpecFloat.
From stdpp Require Import base option list strings gmap fin_maps pretty.

(** ** Go values *)

(** A Go map is a reference; [loc] is the address of a map in the heap. *)
Definition loc := positive.

(** The dynamic values stored behind [interface{}]. A nested map is held
    by reference, which is what makes a copy of a map shallow. *)
Inductive value : Type :=
  | VString (s : string)
  | VInt (n : Z)
  | VBool (b : bool)
  | VMap (l : loc).

(** [any]: [None] is the nil interface. *)
Definition any : Type := option value.

Abbreviation GoMap := (gmap string any).
Abbreviation Heap := (gmap loc (gmap string any)).

(** [schema.Document]; a nil [Metadata] map is [None]. *)
Record Document : Type := mkDocument {
  PageContent : string;
  Metadata : option loc
}.

(** [float32] with the IEEE 754 comparison of [SpecFloat]. *)
Definition float32 : Type := spec_float.
Definition float64 : Type := spec_float.

(** The constants [0] and [1] as binary32 values. *)
Definition f32_zero : float32 := S754_zero false.
Definition f32_one : float32 := S754_finite false 8388608 (-23).

(** Go's [<] and [>] on floats: false as soon as one side is NaN. *)
Definition f32_lt (x y : float32) : bool := SFltb x y.
Definition f32_gt (x y : float32) : bool := SFltb y x.
Definition f32_le (x y : float32) : bool := SFleb x y.

Definition Vector : Type := list float32.

(** [errors.New text]. *)
Inductive error : Type := errors_New (text : string).

(** A returned slice, where nil ([None]) and an empty slice differ. Slices
    that the code only measures, ranges over and indexes are lists. *)
Definition slice (A : Type) : Type := option (list A).

(** ** The types of packages [schema] and [llms] the wrappers use *)

Module schema.

(** [schema.ChatMessageType] is a string type, declared outside the files at
    hand with five constants; any other value is [ChatMessageTypeOther]. *)
Inductive ChatMessageType : Type :=
  | ChatMessageTypeAI
  | ChatMessageTypeHuman
  | ChatMessageTypeSystem
  | ChatMessageTypeGeneric
  | ChatMessageTypeFunction
  | ChatMessageTypeOther (name : string).

Record AIChatMessage : Type := mkAIChatMessage {
  Content : string
}.

(** A value of interface [schema.ChatMessage]: what its two methods return,
    and the name it returns when it also implements [schema.Named]. *)
Record ChatMessage : Type := mkChatMessage {
  GetType : ChatMessageType;
  GetContent : string;
  GetName : option string
}.

End schema.

Module llms.

(** [llms.CallOptions], declared outside the files at hand: the fields the
    wrappers read. The streaming function is only compared with nil. *)
Record CallOptions : Type := mkCallOptions {
  MaxTokens : Z;
  Temperature : float64;
  StreamingFunc : option (string -> option error)
}.

Definition CallOptions_zero : CallOptions :=
  {| MaxTokens := 0; Temperature := S754_zero false; StreamingFunc := None |}.

(** [llms.CallOption]: a function that updates a [CallOptions] in place. *)
Definition CallOption : Type := CallOptions -> CallOptions.

(** [llms.Generation]; [Message] is a pointer. *)
Record Generation : Type := mkGeneration {
  Text : string;
  Message : option schema.AIChatMessage
}.

End llms.

(** ** The embedding wrapper of package [vertexai] *)

Module vertexai.
Section LLM.
Context {World : Type}.

Definition ErrEmptyResponse : error := errors_New "no response".
Definition ErrUnexpectedResponseLength : error :=
  errors_New "unexpected length of response".

(** [vertexaiclient.EmbeddingRequest]. *)
Record EmbeddingRequest : Type := mkEmbeddingRequest {
  Input : list string
}.

(** Modelled from the spec: [vertexaiclient.PaLMClient] is outside the files
    at hand; its [CreateEmbedding] is the external embedding provider, which
    returns a sequence of vectors and an error. *)
Record PaLMClient : Type := mkPaLMClient {
  client_CreateEmbedding :
    World -> EmbeddingRequest -> (list (list float64) * option error) * World
}.

Record LLM : Type := mkLLM {
  client : PaLMClient
}.

Definition CreateEmbedding (o : LLM) (inputTexts : list string) (w : World)
  : (list (list float64) * option error) * World :=
  let '((embeddings, err), w') :=
    client_CreateEmbedding (client o) w {| Input := inputTexts |} in
  match err with
  | Some e => (([], Some e), w')
  | None =>
      if (length embeddings =? 0)%nat then
        (([], Some ErrEmptyResponse), w')
      else if negb (length inputTexts =? length embeddings)%nat then
        ((embeddings, Some ErrUnexpectedResponseLength), w')
      else
        ((embeddings, None), w')
  end.

End LLM.

(** *** Completion and chat *)

Section Text.
Context {World : Type}.

Definition ErrNotImplemented : error := errors_New "not implemented".

Definition userAuthor : string := "user".
Definition botAuthor : string := "bot".

(** The requests and responses of [vertexaiclient], declared outside the
    files at hand: the fields the wrappers set and read. *)
Record CompletionRequest : Type := mkCompletionRequest {
  Prompts : list string;
  MaxTokens : Z;
  Temperature : float64
}.

Record Completion : Type := mkCompletion {
  Text : string
}.

(** [vertexaiclient.ChatMessage], also known as [vertexai.ChatMessage]. *)
Record ChatMessage : Type := mkChatMessage {
  Content : string;
  Author : string
}.

(** [Messages] is a slice of pointers: [None] is a nil pointer. The
    temperature field is [Temperature] in the source. *)
Record ChatRequest : Type := mkChatRequest {
  ChatTemperature : float64;
  Messages : list (option ChatMessage)
}.

Record ChatResponse : Type := mkChatResponse {
  Candidates : list ChatMessage
}.

(** The two other methods of the client that [LLM] and [Chat] hold. On
    success the completions are non-nil pointers and so is the response. *)
Record TextClient : Type := mkTextClient {
  client_CreateCompletion :
    World -> CompletionRequest -> (list Completion * option error) * World;
  client_CreateChat :
    World -> ChatRequest -> (ChatResponse * option error) * World
}.

Variable textClient : TextClient.

(** [LLM.Generate]. *)
Definition LLM_Generate (prompts : list string) (options : list llms.CallOption)
    (w : World) : (slice llms.Generation * option error) * World :=
  let opts := foldl (fun opts opt => opt opts) llms.CallOptions_zero options in
  let '((results, err), w') :=
    client_CreateCompletion textClient w
      {| Prompts := prompts; MaxTokens := llms.MaxTokens opts;
         Temperature := llms.Temperature opts |} in
  match err with
  | Some e => ((None, Some e), w')
  | None =>
      let generations :=
        foldl (fun generations r =>
                 generations ++ [ {| llms.Text := Text r; llms.Message := None |} ])
              [] results in
      ((Some generations, None), w')
  end.

(** [LLM.Call]. *)
Definition LLM_Call (prompt : string) (options : list llms.CallOption)
    (w : World) : (string * option error) * World :=
  let '((r, err), w') := LLM_Generate [prompt] options w in
  match err with
  | Some e => ((EmptyString, Some e), w')
  | None =>
      match default [] r with
      | [] => ((EmptyString, Some ErrEmptyResponse), w')
      | g :: _ => ((llms.Text g, None), w')
      end
  end.

(** [l[i] = x]: a panic ([None]) when [i] is out of range. *)
Definition store_at {A} (i : nat) (x : A) (l : list A) : option (list A) :=
  if (i <? length l)%nat then Some (<[i := x]> l) else None.

Definition set_Author (a : string) (msg : ChatMessage) : ChatMessage :=
  {| Content := Content msg; Author := a |}.

(** The loop of [toClientChatMessage], from index [i] on. *)
Fixpoint toClientChatMessage_loop (i : nat) (messages : list schema.ChatMessage)
    (msgs : list (option ChatMessage)) : option (list (option ChatMessage)) :=
  match messages with
  | [] => Some msgs
  | m :: rest =>
      let msg := {| Content := schema.GetContent m; Author := EmptyString |} in
      let msg :=
        match schema.GetType m with
        | schema.ChatMessageTypeSystem => set_Author botAuthor msg
        | schema.ChatMessageTypeAI => set_Author botAuthor msg
        | schema.ChatMessageTypeHuman => set_Author userAuthor msg
        | schema.ChatMessageTypeGeneric => set_Author userAuthor msg
        | schema.ChatMessageTypeFunction => set_Author userAuthor msg
        | schema.ChatMessageTypeOther _ => msg
        end in
      let msg :=
        match schema.GetName m with
        | Some n => set_Author n msg
        | None => msg
        end in
      match store_at i (Some msg) msgs with
      | Some msgs' => toClientChatMessage_loop (S i) rest msgs'
      | None => None
      end
  end.

Definition toClientChatMessage (messages : list schema.ChatMessage)
  : option (list (option ChatMessage)) :=
  toClientChatMessage_loop 0 messages (replicate (length messages) None).

(** The loop of [Chat.Generate] over the message sets; [None] is a panic. *)
Fixpoint Chat_Generate_loop (opts : llms.CallOptions)
    (messageSets : list (list schema.ChatMessage))
    (generations : list llms.Generation) (w : World)
  : option ((slice llms.Generation * option error) * World) :=
  match messageSets with
  | [] => Some ((Some generations, None), w)
  | messages :: rest =>
      match toClientChatMessage messages with
      | None => None
      | Some msgs =>
          let '((result, err), w') :=
            client_CreateChat textClient w
              {| ChatTemperature := llms.Temperature opts; Messages := msgs |} in
          match err with
          | Some e => Some ((None, Some e), w')
          | None =>
              match Candidates result with
              | [] => Some ((None, Some ErrEmptyResponse), w')
              | c :: _ =>
                  Chat_Generate_loop opts rest
                    (generations
                     ++ [ {| llms.Text := Content c;
                             llms.Message :=
                               Some {| schema.Content := Content c |} |} ])
                    w'
              end
          end
      end
  end.

(** [Chat.Generate]. *)
Definition Chat_Generate (messageSets : list (list schema.ChatMessage))
    (options : list llms.CallOption) (w : World)
  : option ((slice llms.Generation * option error) * World) :=
  let opts := foldl (fun opts opt => opt opts) llms.CallOptions_zero options in
  match llms.StreamingFunc opts with
  | Some _ => Some ((None, Some ErrNotImplemented), w)
  | None => Chat_Generate_loop opts messageSets [] w
  end.

(** [Chat.Call]. *)
Definition Chat_Call (messages : list schema.ChatMessage)
    (options : list llms.CallOption) (w : World)
  : option ((option schema.AIChatMessage * option error) * World) :=
  match Chat_Generate [messages] options w with
  | None => None
  | Some ((r, err), w') =>
      match err with
      | Some e => Some ((None, Some e), w')
      | None =>
          match default [] r with
          | [] => Some ((None, Some ErrEmptyResponse), w')
          | g :: _ => Some ((llms.Message g, None), w')
          end
      end
  end.

End Text.
End vertexai.

(** ** The metadata search command of package [redisvector] *)

Module redisvector.

(** Modelled from the spec: the declaration of [IndexVectorSearch] is
    outside the files at hand; these are the fields the command builder reads.
    [offset] and [limit] are Go [int]s. *)
Record IndexVectorSearch : Type := mkIndexVectorSearch {
  index : string;
  returns : list string;
  preFilters : string;
  offset : Z;
  limit : Z
}.

(** [strconv.Itoa]: the decimal digits, with a leading minus sign for a
    negative number. *)
Definition Itoa (n : Z) : string := pretty n.

Definition set_limit (n : Z) (s : IndexVectorSearch) : IndexVectorSearch :=
  {| index := index s; returns := returns s; preFilters := preFilters s;
     offset := offset s; limit := n |}.

(** The receiver is a copy, so the caller's [limit] is not changed. *)
Definition AsMetadataSearchCommand (s : IndexVectorSearch) : list string :=
  let cmd := ["FT.SEARCH"; index s] in
  let s := if (limit s =? 0)%Z then set_limit 1 s else s in
  let filter := "*" in
  let filter := if (0 <? String.length (preFilters s))%nat
                then preFilters s else filter in
  let cmd := cmd ++ [filter] in
  let cmd := if (0 <? length (returns s))%nat
             then (cmd ++ ["RETURN"; Itoa (Z.of_nat (length (returns s)))])
                  ++ returns s
             else cmd in
  let cmd := cmd ++ ["DIALECT"; "2"] in
  let cmd := cmd ++ ["LIMIT"; Itoa (offset s); Itoa (limit s)] in
  cmd.

(** [SearchOption]: a function that updates the search in place. *)
Definition SearchOption : Type := IndexVectorSearch -> IndexVectorSearch.

(** The pointer returned is nil ([None]) on error. *)
Definition NewIndexMetadataSearch (index : string) (opts : list SearchOption)
  : option IndexVectorSearch * option error :=
  if String.eqb index EmptyString then
    (None, Some (errors_New "invalid index"))
  else
    let s := {| index := index; returns := []; preFilters := EmptyString;
                offset := 0; limit := 0 |} in
    (Some (foldl (fun s opt => opt s) s opts), None).

End redisvector.

(** ** The qdrant vector store *)

Section Qdrant.

Context {World : Type}.

(** ** External capabilities *)

(** [embeddings.Embedder]. *)
Record Embedder : Type := mkEmbedder {
  EmbedDocuments : World -> list string -> (list Vector * option error) * World;
  EmbedQuery : World -> string -> (Vector * option error) * World
}.

(** The deduplication predicate [func(ctx, doc) bool]: it may read the
    document's metadata (the heap is passed read-only) and has its own
    effects on the world. *)
Definition DeduplicaterFunc : Type :=
  Heap -> World -> Document -> bool * World.

(** Modelled from the spec: [vectorstores.Options] is declared outside the
    files at hand; these are the fields the store reads (SearchOptions:
    scoreThreshold, filters, deduplicater). Its zero value is [Options{}]. *)
Record Options : Type := mkOptions {
  ScoreThreshold : float32;
  Filters : any;
  Deduplicater : option DeduplicaterFunc
}.

Definition Options_zero : Options :=
  {| ScoreThreshold := f32_zero; Filters := None; Deduplicater := None |}.

(** [vectorstores.Option]: a function that updates an [Options] in place. *)
Definition Option_ : Type := Options -> Options.

(** Modelled from the spec: the option constructors are declared with
    [vectorstores.Options] (per-call configuration: scoreThreshold, filters,
    deduplicater override); each sets its one field. *)
Definition WithScoreThreshold (scoreThreshold : float32) : Option_ :=
  fun o => {| ScoreThreshold := scoreThreshold; Filters := Filters o;
              Deduplicater := Deduplicater o |}.

Definition WithFilters (filters : any) : Option_ :=
  fun o => {| ScoreThreshold := ScoreThreshold o; Filters := filters;
              Deduplicater := Deduplicater o |}.

Definition WithDeduplicater (fn : DeduplicaterFunc) : Option_ :=
  fun o => {| ScoreThreshold := ScoreThreshold o; Filters := Filters o;
              Deduplicater := Some fn |}.

(** Modelled from the spec: the methods [upsertPoints], [searchPoints] and
    [scroll] of the store live in a file that is not at hand (BackendClient:
    UpsertPoints, SearchPoints, Scroll). They receive the contents of the
    payload maps; the two retrieval calls allocate the metadata maps of the
    documents they return. *)
Record Backend : Type := mkBackend {
  upsertPoints : World -> string -> list Vector -> list GoMap ->
                 (slice string * option error) * World;
  searchPoints : Heap -> World -> string -> Vector -> Z -> float32 -> any ->
                 (slice Document * option error) * (Heap * World);
  scroll : Heap -> World -> string -> Z -> any ->
           (slice Document * option error) * (Heap * World)
}.

Record Store : Type := mkStore {
  embedder : Embedder;
  collectionName : string;
  qdrantURL : string;
  apiKey : string;
  contentKey : string
}.

(** The backend behind the three RPC methods. *)
Variable backend : Backend.

(** ** State, call log and the monad of store operations *)

Inductive Call : Type :=
  | CallDeduplicater (doc : Document) (verdict : bool)
  | CallEmbedDocuments (texts : list string)
  | CallEmbedQuery (query : string)
  | CallUpsertPoints (url : string) (vectors : list Vector)
                     (refs : list loc) (payloads : list GoMap)
  | CallSearchPoints (url : string) (vector : Vector) (numDocuments : Z)
                     (scoreThreshold : float32) (filters : any)
  | CallScroll (url : string) (numDocuments : Z) (filters : any).

Record State : Type := mkState {
  heap : Heap;
  world : World;
  calls : list Call
}.

(** [None] is a run-time panic (index out of range, write to a map that is
    not allocated). *)
Definition M (A : Type) : Type := State -> option (A * State).

Definition ret {A} (a : A) : M A := fun st => Some (a, st).

Definition bind {A B} (m : M A) (k : A -> M B) : M B :=
  fun st => match m st with
            | Some (a, st') => k a st'
            | None => None
            end.

Definition panic {A} : M A := fun _ => None.

Notation "'do' x <- m ; k" := (bind m (fun x => k))
  (at level 10, x name, m at level 100, k at level 200).
Notation "'do' ' pat <- m ; k" :=
  (bind m (fun x => match x with pat => k end))
  (at level 10, pat pattern, m at level 100, k at level 200).

(** *** Primitive steps *)

Definition set_heap (h : Heap) (st : State) : State :=
  {| heap := h; world := world st; calls := calls st |}.

(** An external call: the world moves on and the call is logged. *)
Definition called (c : Call) (w : World) (st : State) : State :=
  {| heap := heap st; world := w; calls := calls st ++ [c] |}.

(** [l[i]]: panics when [i] is out of range. *)
Definition index {A} (l : list A) (i : nat) : M A :=
  match l !! i with
  | Some x => ret x
  | None => panic
  end.

(** [make(map[string]interface{}, n)]: a fresh, empty map. *)
Definition make_map : M loc :=
  fun st => let l := fresh (dom (heap st)) in
            Some (l, set_heap (<[l := ∅]> (heap st)) st).

(** The entries a [range] over the map visits; none for a nil map. *)
Definition map_entries (m : option loc) : M (list (string * any)) :=
  fun st => match m with
            | None => Some ([], st)
            | Some l => match heap st !! l with
                        | Some g => Some (map_to_list g, st)
                        | None => None
                        end
            end.

(** [m[key] = v]. *)
Definition map_store (l : loc) (key : string) (v : any) : M unit :=
  fun st => match heap st !! l with
            | Some g => Some (tt, set_heap (<[l := <[key := v]> g]> (heap st)) st)
            | None => None
            end.

(** [for _, x := range l { acc = body x acc }]. *)
Fixpoint range_loop {A B} (l : list A) (body : A -> B -> M B) (acc : B) : M B :=
  match l with
  | [] => ret acc
  | x :: l' => do acc' <- body x acc; range_loop l' body acc'
  end.

(** [for i := start; i < start + count; i++ { acc = body i acc }]. *)
Fixpoint for_loop {B} (start count : nat) (body : nat -> B -> M B) (acc : B)
  : M B :=
  match count with
  | O => ret acc
  | S count' => do acc' <- body start acc;
                for_loop (S start) count' body acc'
  end.

Definition call_Deduplicater (p : DeduplicaterFunc) (doc : Document) : M bool :=
  fun st => let '(b, w) := p (heap st) (world st) doc in
            Some (b, called (CallDeduplicater doc b) w st).

Definition call_EmbedDocuments (e : Embedder) (texts : list string)
  : M (list Vector * option error) :=
  fun st => let '(r, w) := EmbedDocuments e (world st) texts in
            Some (r, called (CallEmbedDocuments texts) w st).

Definition call_EmbedQuery (e : Embedder) (query : string)
  : M (Vector * option error) :=
  fun st => let '(r, w) := EmbedQuery e (world st) query in
            Some (r, called (CallEmbedQuery query) w st).

(** The payload maps are handed over by reference; the backend reads their
    contents. A reference that is not allocated is a panic. *)
Definition call_upsertPoints (b : Backend) (url : string)
    (vectors : list Vector) (metadatas : list loc)
  : M (slice string * option error) :=
  fun st => match mapM (fun l => heap st !! l) metadatas with
            | Some payloads =>
                let '(r, w) := upsertPoints b (world st) url vectors payloads in
                Some (r, called (CallUpsertPoints url vectors metadatas payloads)
                                w st)
            | None => None
            end.

Definition call_searchPoints (b : Backend) (url : string) (vector : Vector)
    (numDocuments : Z) (scoreThreshold : float32) (filters : any)
  : M (slice Document * option error) :=
  fun st =>
    let '(r, (h, w)) := searchPoints b (heap st) (world st) url vector
                          numDocuments scoreThreshold filters in
    Some (r, called (CallSearchPoints url vector numDocuments scoreThreshold
                                      filters) w (set_heap h st)).

Definition call_scroll (b : Backend) (url : string) (numDocuments : Z)
    (filters : any) : M (slice Document * option error) :=
  fun st =>
    let '(r, (h, w)) := scroll b (heap st) (world st) url numDocuments filters in
    Some (r, called (CallScroll url numDocuments filters) w (set_heap h st)).

(** ** The store: [qdrant.go] *)

Definition getScoreThreshold (s : Store) (opts : Options)
  : float32 * option error :=
  if f32_lt (ScoreThreshold opts) f32_zero || f32_gt (ScoreThreshold opts) f32_one
  then (f32_zero, Some (errors_New "score threshold must be between 0 and 1"))
  else (ScoreThreshold opts, None).

Definition getFilters (s : Store) (opts : Options) : any :=
  match Filters opts with
  | Some v => Some v
  | None => None
  end.

Definition getOptions (s : Store) (options : list Option_) : Options :=
  foldl (fun opts opt => opt opts) Options_zero options.

Definition deduplicate (s : Store) (opts : Options) (docs : list Document)
  : M (list Document) :=
  match Deduplicater opts with
  | None => ret docs
  | Some dedup =>
      range_loop docs
        (fun doc filtered =>
           do dup <- call_Deduplicater dedup doc;
           if negb dup then ret (filtered ++ [doc]) else ret filtered)
        []
  end.

Definition AddDocuments (s : Store) (docs : list Document)
    (options : list Option_) : M (slice string * option error) :=
  let opts := getOptions s options in
  do docs <- deduplicate s opts docs;
  if (length docs =? 0)%nat then ret (None, None) else
  do texts <- range_loop docs
                (fun doc texts => ret (texts ++ [PageContent doc])) [];
  do '(vectors, err) <- call_EmbedDocuments (embedder s) texts;
  match err with
  | Some e => ret (None, Some e)
  | None =>
      if negb (length vectors =? length docs)%nat then
        ret (None, Some (errors_New
          "number of vectors from embedder does not match number of documents"))
      else
        do metadatas <- for_loop 0 (length docs)
          (fun i metadatas =>
             do doc <- index docs i;
             do metadata <- make_map;
             do entries <- map_entries (Metadata doc);
             do _ <- range_loop entries
                       (fun '(key, v) _ => map_store metadata key v) tt;
             do text <- index texts i;
             do _ <- map_store metadata (contentKey s) (Some (VString text));
             ret (metadatas ++ [metadata]))
          [];
        call_upsertPoints backend (qdrantURL s) vectors metadatas
  end.

Definition SimilaritySearch (s : Store) (query : string) (numDocuments : Z)
    (options : list Option_) : M (slice Document * option error) :=
  let opts := getOptions s options in
  let filters := getFilters s opts in
  let '(scoreThreshold, err) := getScoreThreshold s opts in
  match err with
  | Some e => ret (None, Some e)
  | None =>
      do '(vector, err) <- call_EmbedQuery (embedder s) query;
      match err with
      | Some e => ret (None, Some e)
      | None => call_searchPoints backend (qdrantURL s) vector numDocuments
                  scoreThreshold filters
      end
  end.

Definition PayloadSearch (s : Store) (numDocuments : Z)
    (options : list Option_) : M (slice Document * option error) :=
  let opts := getOptions s options in
  let filters := getFilters s opts in
  call_scroll backend (qdrantURL s) numDocuments filters.

(** ** Specification vocabulary *)

(** The verdicts the predicate gives when asked once per document, in input
    order, each time in the world its previous answers left behind. *)
Inductive asked (p : DeduplicaterFunc) (h : Heap)
  : World -> list Document -> list bool -> World -> Prop :=
  | asked_nil w : asked p h w [] [] w
  | asked_cons w d b w' ds bs w'' :
      p h w d = (b, w') ->
      asked p h w' ds bs w'' ->
      asked p h w (d :: ds) (b :: bs) w''.

(** The documents whose verdict is [false]. *)
Fixpoint kept (docs : list Document) (verdicts : list bool) : list Document :=
  match docs, verdicts with
  | d :: ds, b :: bs => if b then kept ds bs else d :: kept ds bs
  | _, _ => []
  end.

(** The contents of a document's metadata map; a nil map has no entries. *)
Definition metadata_of (h : Heap) (d : Document) : GoMap :=
  match Metadata d with
  | Some l => default ∅ (h !! l)
  | None => ∅
  end.

(** The payload of a document: its metadata with the content key set. *)
Definition payload_of (key : string) (h : Heap) (d : Document) : GoMap :=
  <[key := Some (VString (PageContent d))]> (metadata_of h d).

(** The heap and the payload references the payload loop produces: one
    fresh map per document, holding the document's payload. *)
Fixpoint build_payloads (key : string) (docs : list Document) (h : Heap)
  : list loc * Heap :=
  match docs with
  | [] => ([], h)
  | d :: ds =>
      let l := fresh (dom h) in
      let '(ls, h') := build_payloads key ds (<[l := payload_of key h d]> h) in
      (l :: ls, h')
  end.

(** Every metadata reference of the batch points to an allocated map. *)
Definition docs_allocated (h : Heap) (docs : list Document) : Prop :=
  ∀ d l, d ∈ docs -> Metadata d = Some l -> is_Some (h !! l).

(** The events of a log that reach the embedder or the backend. *)
Definition is_embed (c : Call) : bool :=
  match c with
  | CallEmbedDocuments _ | CallEmbedQuery _ => true
  | _ => false
  end.

Definition is_upsert (c : Call) : bool :=
  match c with
  | CallUpsertPoints _ _ _ _ => true
  | _ => false
  end.

Definition is_rpc (c : Call) : bool :=
  match c with
  | CallUpsertPoints _ _ _ _ | CallSearchPoints _ _ _ _ _ | CallScroll _ _ _ => true
  | _ => false
  end.

Definition is_dedup (c : Call) : bool :=
  match c with
  | CallDeduplicater _ _ => true
  | _ => false
  end.

(** The filter value a backend call was handed. *)
Definition filters_of (c : Call) : option any :=
  match c with
  | CallSearchPoints _ _ _ _ filters | CallScroll _ _ filters => Some filters
  | _ => None
  end.

(** ** Loops *)

Lemma set_heap_id st : set_heap (heap st) st = st.
Proof. by destruct st. Qed.

Lemma collect_texts docs : ∀ acc st,
  range_loop docs (fun doc texts => ret (texts ++ [PageContent doc])) acc st
  = Some (acc ++ (PageContent <$> docs), st).
Proof.
  induction docs as [|d docs IH]; intros acc st; simpl.
  - by rewrite app_nil_r.
  - unfold bind, ret at 1. rewrite IH, <- app_assoc. reflexivity.
Qed.

Lemma kept_sublist docs : ∀ verdicts, sublist (kept docs verdicts) docs.
Proof.
  induction docs as [|d docs IH]; intros [|[] bs]; simpl;
    try apply sublist_nil_l.
  - apply sublist_cons, IH.
  - apply sublist_skip, IH.
Qed.

Lemma kept_pure (f : Document -> bool) docs :
  kept docs (f <$> docs) = filter (fun d => f d = false) docs.
Proof.
  induction docs as [|d docs IH]; [done|].
  rewrite fmap_cons. cbn [kept]. rewrite IH. destruct (f d) eqn:E.
  - rewrite filter_cons_False; [done | congruence].
  - by rewrite filter_cons_True.
Qed.

Local Abbreviation dedup_body dedup :=
  (fun (doc : Document) (filtered : list Document) =>
     do dup <- call_Deduplicater dedup doc;
     if negb dup then ret (filtered ++ [doc]) else ret filtered).

Lemma dedup_loop (dedup : DeduplicaterFunc) docs : ∀ acc st,
  ∃ verdicts w',
    range_loop docs (dedup_body dedup) acc st
    = Some (acc ++ kept docs verdicts,
            {| heap := heap st; world := w';
               calls := calls st ++ zip_with CallDeduplicater docs verdicts |})
    ∧ asked dedup (heap st) (world st) docs verdicts w'
    ∧ length verdicts = length docs.
Proof.
  induction docs as [|d docs IH]; intros acc st.
  - exists [], (world st). simpl. rewrite !app_nil_r.
    split; [by destruct st | split; [constructor | done]].
  - cbn [range_loop]. unfold bind at 1 2. unfold call_Deduplicater at 1.
    destruct (dedup (heap st) (world st) d) as [b w1] eqn:Hp.
    destruct b; cbn [negb]; unfold ret at 1.
    + destruct (IH acc (called (CallDeduplicater d true) w1 st))
        as (bs & w' & Hrun & Hasked & Hlen).
      exists (true :: bs), w'. rewrite Hrun. cbn.
      rewrite <- app_assoc. split; [done|].
      split; [econstructor; eauto | by rewrite Hlen].
    + destruct (IH (acc ++ [d]) (called (CallDeduplicater d false) w1 st))
        as (bs & w' & Hrun & Hasked & Hlen).
      exists (false :: bs), w'. rewrite Hrun. cbn.
      rewrite <- !app_assoc. split; [done|].
      split; [econstructor; eauto | by rewrite Hlen].
Qed.

(** *** Copying a map into a fresh one *)

Lemma foldl_insert_reverse (entries : list (string * any)) : ∀ g : GoMap,
  foldl (fun g kv => <[kv.1 := kv.2]> g) g entries
  = foldr (fun kv g => <[kv.1 := kv.2]> g) g (reverse entries).
Proof.
  induction entries as [|kv entries IH]; intros g; [done|].
  rewrite reverse_cons, foldr_app. simpl. apply IH.
Qed.

Lemma foldl_insert_map_to_list (m : GoMap) :
  foldl (fun g kv => <[kv.1 := kv.2]> g) ∅ (map_to_list m) = m.
Proof.
  rewrite foldl_insert_reverse.
  transitivity (list_to_map (M := GoMap) (reverse (map_to_list m))).
  - reflexivity.
  - rewrite <- (list_to_map_to_list m) at 2.
    apply list_to_map_proper.
    + rewrite fmap_reverse, reverse_Permutation. apply NoDup_fst_map_to_list.
    + apply reverse_Permutation.
Qed.

Lemma copy_entries (l : loc) entries : ∀ (g : GoMap) st,
  heap st !! l = Some g ->
  range_loop entries (fun '(key, v) _ => map_store l key v) tt st
  = Some (tt, set_heap
                (<[l := foldl (fun g kv => <[kv.1 := kv.2]> g) g entries]> (heap st))
                st).
Proof.
  induction entries as [|[k v] entries IH]; intros g st Hl.
  - cbn. unfold ret. rewrite insert_id by done. by rewrite set_heap_id.
  - cbn [range_loop]. unfold bind at 1. unfold map_store at 1. rewrite Hl.
    destruct tt.
    rewrite (IH (<[k := v]> g)) by (cbn; apply lookup_insert_eq).
    cbn. by rewrite insert_insert_eq.
Qed.

Lemma fresh_loc_None (h : Heap) : h !! fresh (dom h) = None.
Proof. apply not_elem_of_dom, is_fresh. Qed.

Lemma metadata_of_weaken (h h' : Heap) d :
  h ⊆ h' -> (∀ l, Metadata d = Some l -> is_Some (h !! l)) ->
  metadata_of h' d = metadata_of h d.
Proof.
  intros Hsub Hd. unfold metadata_of. destruct (Metadata d) as [l|]; [|done].
  destruct (Hd l eq_refl) as [g Hg]. rewrite Hg.
  by rewrite (lookup_weaken _ _ _ _ Hg Hsub).
Qed.

Lemma docs_allocated_weaken (h h' : Heap) docs :
  h ⊆ h' -> docs_allocated h docs -> docs_allocated h' docs.
Proof.
  intros Hsub Hd d l Hin Hm. destruct (Hd d l Hin Hm) as [g Hg].
  exists g. by eapply lookup_weaken.
Qed.

Lemma docs_allocated_cons (h : Heap) d docs :
  docs_allocated h (d :: docs) ->
  (∀ l, Metadata d = Some l -> is_Some (h !! l)) ∧ docs_allocated h docs.
Proof.
  intros Hd. split.
  - intros l. apply Hd. by left.
  - intros d' l Hin. apply Hd. by right.
Qed.

Lemma build_payloads_spec key docs : ∀ h,
  docs_allocated h docs ->
  let '(ls, h') := build_payloads key docs h in
  length ls = length docs
  ∧ h ⊆ h'
  ∧ (∀ i l, ls !! i = Some l ->
       h !! l = None
       ∧ ∃ d, docs !! i = Some d ∧ h' !! l = Some (payload_of key h d)).
Proof.
  induction docs as [|d docs IH]; intros h Hwf; cbn [build_payloads].
  - split; [done|]. split; [done|]. intros i l Hl. by destruct i.
  - set (l0 := fresh (dom h)).
    set (h1 := <[l0 := payload_of key h d]> h).
    assert (Hfresh : h !! l0 = None) by apply fresh_loc_None.
    assert (Hsub1 : h ⊆ h1) by (by apply insert_subseteq).
    destruct (docs_allocated_cons _ _ _ Hwf) as [Hd Hds].
    specialize (IH h1 (docs_allocated_weaken _ _ _ Hsub1 Hds)).
    destruct (build_payloads key docs h1) as [ls h'].
    destruct IH as (Hlen & Hsub & Hpay).
    split; [cbn; by rewrite Hlen|].
    split; [by etrans|].
    intros [|i] l Hl; cbn in Hl.
    + inversion Hl; subst l. split; [done|]. exists d. split; [done|].
      eapply lookup_weaken; [|exact Hsub]. apply lookup_insert_eq.
    + destruct (Hpay i l Hl) as (Hnone & d' & Hd' & Hl').
      split; [by eapply lookup_weaken_None|].
      exists d'. split; [done|]. rewrite Hl'. f_equal.
      unfold payload_of. f_equal. apply metadata_of_weaken; [done|].
      intros l1. apply Hds. by eapply list_elem_of_lookup_2.
Qed.

(** *** The payload loop of [AddDocuments] *)

Local Abbreviation payload_body ckey docs texts :=
  (fun (i : nat) (metadatas : list loc) =>
     do doc <- index docs i;
     do metadata <- make_map;
     do entries <- map_entries (Metadata doc);
     do _ <- range_loop entries
               (fun '(key, v) _ => map_store metadata key v) tt;
     do text <- index texts i;
     do _ <- map_store metadata ckey (Some (VString text));
     ret (metadatas ++ [metadata])).

Lemma payload_step key docs texts i d acc st :
  docs !! i = Some d ->
  texts !! i = Some (PageContent d) ->
  (∀ l, Metadata d = Some l -> is_Some (heap st !! l)) ->
  payload_body key docs texts i acc st
  = Some (acc ++ [fresh (dom (heap st))],
          set_heap (<[fresh (dom (heap st)) := payload_of key (heap st) d]>
                      (heap st)) st).
Proof.
  intros Hdoc Htext Hmeta.
  pose proof (fresh_loc_None (heap st)) as Hfresh.
  set (l0 := fresh (dom (heap st))) in *.
  unfold bind at 1. unfold index at 1. rewrite Hdoc. unfold ret at 1.
  unfold bind at 1. unfold make_map at 1. fold l0.
  set (st1 := set_heap (<[l0 := ∅]> (heap st)) st).
  assert (Hl0 : heap st1 !! l0 = Some ∅) by apply lookup_insert_eq.
  assert (Hentries : map_entries (Metadata d) st1
                     = Some (map_to_list (metadata_of (heap st) d), st1)).
  { unfold map_entries, metadata_of. destruct (Metadata d) as [l|].
    - destruct (Hmeta l eq_refl) as [g Hg]. cbn.
      rewrite lookup_insert_ne by (intros ->; congruence).
      by rewrite Hg.
    - by rewrite map_to_list_empty. }
  unfold bind at 1. rewrite Hentries.
  unfold bind at 1. rewrite (copy_entries l0 _ ∅ st1 Hl0).
  rewrite foldl_insert_map_to_list.
  unfold bind at 1. unfold index at 1. rewrite Htext. unfold ret at 1.
  unfold bind at 1. unfold map_store at 1. cbn [heap set_heap st1].
  rewrite lookup_insert_eq. unfold ret. cbn.
  by rewrite !insert_insert_eq.
Qed.

Lemma payload_loop key docs texts ds : ∀ i acc st,
  (∀ j d, ds !! j = Some d ->
     docs !! (i + j) = Some d ∧ texts !! (i + j) = Some (PageContent d)) ->
  docs_allocated (heap st) ds ->
  for_loop i (length ds) (payload_body key docs texts) acc st
  = Some (acc ++ (build_payloads key ds (heap st)).1,
          set_heap (build_payloads key ds (heap st)).2 st).
Proof.
  induction ds as [|d ds IH]; intros i acc st Hidx Hwf.
  - cbn. unfold ret. by rewrite app_nil_r, set_heap_id.
  - destruct (docs_allocated_cons _ _ _ Hwf) as [Hd Hds].
    destruct (Hidx 0 d eq_refl) as [Hdoc Htext].
    rewrite Nat.add_0_r in Hdoc, Htext.
    cbn [length for_loop]. unfold bind at 1.
    rewrite (payload_step key docs texts i d acc st Hdoc Htext Hd).
    rewrite IH.
    + cbn [build_payloads heap set_heap].
      destruct (build_payloads key ds _) as [ls h']. cbn.
      by rewrite <- app_assoc.
    + intros j d' Hj. rewrite Nat.add_succ_l, <- Nat.add_succ_r.
      by apply Hidx.
    + cbn [heap set_heap]. eapply docs_allocated_weaken; [|exact Hds].
      apply insert_subseteq, fresh_loc_None.
Qed.

(** *** Runs of [deduplicate] and of [AddDocuments] *)

Lemma deduplicate_run s opts docs st :
  ∃ surv st1,
    deduplicate s opts docs st = Some (surv, st1)
    ∧ heap st1 = heap st
    ∧ match Deduplicater opts with
      | None => surv = docs ∧ st1 = st
      | Some dedup =>
          ∃ verdicts,
            asked dedup (heap st) (world st) docs verdicts (world st1)
            ∧ length verdicts = length docs
            ∧ surv = kept docs verdicts
            ∧ calls st1 = calls st ++ zip_with CallDeduplicater docs verdicts
      end.
Proof.
  unfold deduplicate. destruct (Deduplicater opts) as [dedup|].
  - destruct (dedup_loop dedup docs [] st) as (bs & w' & Hrun & Hasked & Hlen).
    eexists _, _. split; [exact Hrun|]. split; [done|].
    exists bs. by repeat split.
  - exists docs, st. by repeat split.
Qed.

Lemma dedup_calls_only docs : ∀ verdicts,
  Forall (fun c => is_dedup c = true) (zip_with CallDeduplicater docs verdicts).
Proof.
  induction docs as [|d docs IH]; intros [|b bs]; cbn; constructor; auto.
Qed.

Lemma deduplicate_log s opts docs st surv st1 :
  deduplicate s opts docs st = Some (surv, st1) ->
  heap st1 = heap st
  ∧ sublist surv docs
  ∧ ∃ asks, calls st1 = calls st ++ asks
            ∧ Forall (fun c => is_dedup c = true) asks.
Proof.
  intros Hrun.
  destruct (deduplicate_run s opts docs st) as (surv' & st1' & Hrun' & Hh & Hcase).
  rewrite Hrun in Hrun'. inversion Hrun'; subst surv' st1'. clear Hrun'.
  split; [done|]. destruct (Deduplicater opts) as [dedup|].
  - destruct Hcase as (bs & _ & _ & -> & Hcalls).
    split; [apply kept_sublist|]. exists (zip_with CallDeduplicater docs bs).
    split; [done | apply dedup_calls_only].
  - destruct Hcase as [-> ->]. split; [done|]. exists [].
    split; [by rewrite app_nil_r | constructor].
Qed.

Lemma AddDocuments_nothing s docs options st st1 :
  deduplicate s (getOptions s options) docs st = Some ([], st1) ->
  AddDocuments s docs options st = Some ((None, None), st1).
Proof. intros Hd. unfold AddDocuments, bind at 1. by rewrite Hd. Qed.

Lemma AddDocuments_embedded s docs options st surv st1 :
  deduplicate s (getOptions s options) docs st = Some (surv, st1) ->
  surv ≠ [] ->
  AddDocuments s docs options st
  = (let texts := PageContent <$> surv in
     let '((vectors, err), w2) := EmbedDocuments (embedder s) (world st1) texts in
     let st2 := called (CallEmbedDocuments texts) w2 st1 in
     match err with
     | Some e => Some ((None, Some e), st2)
     | None =>
         if negb (length vectors =? length surv)%nat then
           Some ((None, Some (errors_New
             "number of vectors from embedder does not match number of documents")),
             st2)
         else
           (do metadatas <- for_loop 0 (length surv)
                              (payload_body (contentKey s) surv texts) [];
            call_upsertPoints backend (qdrantURL s) vectors metadatas) st2
     end).
Proof.
  intros Hd Hne. unfold AddDocuments, bind at 1. rewrite Hd.
  destruct surv as [|d surv']; [done|]. cbn [length Nat.eqb].
  unfold bind at 1. rewrite collect_texts. cbn [app].
  unfold bind at 1. unfold call_EmbedDocuments at 1. cbn zeta.
  destruct (EmbedDocuments _ _ _) as [[vectors [e|]] w2]; [reflexivity|].
  by destruct (negb _).
Qed.

Lemma payloads_built ckey surv st :
  docs_allocated (heap st) surv ->
  ∃ refs h',
    for_loop 0 (length surv) (payload_body ckey surv (PageContent <$> surv)) [] st
    = Some (refs, set_heap h' st)
    ∧ length refs = length surv
    ∧ heap st ⊆ h'
    ∧ Forall (fun l => heap st !! l = None) refs
    ∧ mapM (fun l => h' !! l) refs = Some (payload_of ckey (heap st) <$> surv).
Proof.
  intros Hwf.
  pose proof (payload_loop ckey surv (PageContent <$> surv) surv 0 [] st) as Hloop.
  pose proof (build_payloads_spec ckey surv (heap st) Hwf) as Hspec.
  destruct (build_payloads ckey surv (heap st)) as [refs h'].
  destruct Hspec as (Hlen & Hsub & Hpay).
  exists refs, h'. split.
  { apply Hloop; [|done]. intros j d Hj. cbn. split; [done|].
    by rewrite list_lookup_fmap, Hj. }
  split; [done|]. split; [done|]. split.
  - apply Forall_lookup. intros i l Hl. by destruct (Hpay i l Hl).
  - apply mapM_Some_2, Forall2_same_length_lookup_2.
    + apply Forall2_same_length, Forall2_true; [done|].
      by rewrite length_fmap.
    + intros i l g Hl Hg. destruct (Hpay i l Hl) as (_ & d & Hd & Hl').
      rewrite list_lookup_fmap, Hd in Hg. cbn in Hg. congruence.
Qed.


Lemma asked_pure (f : Document -> bool) (dedup : DeduplicaterFunc) h :
  (∀ h w d, dedup h w d = (f d, w)) ->
  ∀ docs w verdicts w',
    asked dedup h w docs verdicts w' -> verdicts = f <$> docs ∧ w' = w.
Proof.
  intros Hpure docs w verdicts w' Hasked.
  induction Hasked as [w|w d b w1 ds bs w2 Hp _ IH]; [done|].
  rewrite Hpure in Hp. inversion Hp; subst b w1.
  destruct IH as [-> ->]. done.
Qed.

Lemma dedup_call_internal c :
  is_dedup c = true -> is_embed c = false ∧ is_rpc c = false.
Proof. by destruct c. Qed.

Lemma asked_all_duplicates (dedup : DeduplicaterFunc) h :
  (∀ h w d, (dedup h w d).1 = true) ->
  ∀ docs w verdicts w',
    asked dedup h w docs verdicts w' -> kept docs verdicts = [].
Proof.
  intros Hall docs w verdicts w' Hasked.
  induction Hasked as [w|w d b w1 ds bs w2 Hp _ IH]; [done|].
  specialize (Hall h w d). rewrite Hp in Hall. cbn in Hall. by subst b.
Qed.

Lemma all_duplicates_dropped s opts dedup docs st :
  Deduplicater opts = Some dedup ->
  (∀ h w d, (dedup h w d).1 = true) ->
  ∃ st1, deduplicate s opts docs st = Some ([], st1).
Proof.
  intros Hopt Hall.
  destruct (deduplicate_run s opts docs st) as (surv & st1 & Hrun & _ & Hcase).
  rewrite Hopt in Hcase. destruct Hcase as (bs & Hasked & _ & -> & _).
  exists st1. rewrite Hrun. do 2 f_equal.
  by eapply asked_all_duplicates.
Qed.

Lemma survivors_allocated s opts docs st surv st1 :
  deduplicate s opts docs st = Some (surv, st1) ->
  docs_allocated (heap st) docs ->
  docs_allocated (heap st1) surv.
Proof.
  intros Hd Hwf.
  destruct (deduplicate_log _ _ _ _ _ _ Hd) as (Hh & Hsub & _).
  rewrite Hh. intros d l Hin. apply Hwf. by eapply elem_of_sublist.
Qed.


(** ** Properties of [deduplicate] and [AddDocuments] *)

(** C7: [deduplicate] always returns; with no predicate configured the
    result is the input, unchanged; with a predicate it is asked once per
    document in input order and the result is the documents it answered
    [false] for, in input order (for a predicate that is a function of the
    document: the filter of the input by it); in all cases the result is a
    subsequence of the input and is no longer than it. *)
Theorem deduplicate_subsequence (s : Store) (opts : Options)
    (docs : list Document) (st : State) :
  ∃ surv st1,
    deduplicate s opts docs st = Some (surv, st1)
    ∧ sublist surv docs
    ∧ length surv ≤ length docs
    ∧ match Deduplicater opts with
      | None => surv = docs ∧ st1 = st
      | Some dedup =>
          (∃ verdicts,
             asked dedup (heap st) (world st) docs verdicts (world st1)
             ∧ length verdicts = length docs
             ∧ surv = kept docs verdicts
             ∧ calls st1 = calls st ++ zip_with CallDeduplicater docs verdicts)
          ∧ (∀ f : Document -> bool,
               (∀ h w d, dedup h w d = (f d, w)) ->
               surv = filter (fun d => f d = false) docs)
      end.
Proof.
  destruct (deduplicate_run s opts docs st) as (surv & st1 & Hrun & Hh & Hcase).
  destruct (deduplicate_log s opts docs st surv st1 Hrun) as (_ & Hsub & _).
  exists surv, st1. split; [done|]. split; [done|].
  split; [by apply sublist_length|].
  destruct (Deduplicater opts) as [dedup|]; [|done].
  split; [done|]. intros f Hpure.
  destruct Hcase as (bs & Hasked & _ & -> & _).
  destruct (asked_pure f dedup _ Hpure _ _ _ _ Hasked) as [-> _].
  apply kept_pure.
Qed.

(** C5: when deduplication leaves no document, [AddDocuments] returns
    [(nil, nil)]; the heap is untouched and the only calls made are those to
    the deduplication predicate: neither the embedder nor a backend RPC. *)
Theorem AddDocuments_no_survivors (s : Store) (docs : list Document)
    (options : list Option_) (st st1 : State) :
  deduplicate s (getOptions s options) docs st = Some ([], st1) ->
  AddDocuments s docs options st = Some ((None, None), st1)
  ∧ heap st1 = heap st
  ∧ ∃ asks, calls st1 = calls st ++ asks
            ∧ Forall (fun c => is_embed c = false ∧ is_rpc c = false) asks.
Proof.
  intros Hd. split; [by apply AddDocuments_nothing|].
  destruct (deduplicate_log _ _ _ _ _ _ Hd) as (Hh & _ & asks & Hcalls & Hasks).
  split; [done|]. exists asks. split; [done|].
  eapply Forall_impl; [exact Hasks|]. apply dedup_call_internal.
Qed.

(** C3: when the embedder returns without error a number of vectors that
    differs from the number of surviving documents, [AddDocuments] returns
    the length-mismatch error, and the calls of that run are those to the
    deduplication predicate and the one to the embedder: no backend RPC. *)
Theorem AddDocuments_length_mismatch (s : Store) (docs : list Document)
    (options : list Option_) (st : State)
    (surv : list Document) (st1 : State) (vectors : list Vector) (w2 : World) :
  deduplicate s (getOptions s options) docs st = Some (surv, st1) ->
  surv ≠ [] ->
  EmbedDocuments (embedder s) (world st1) (PageContent <$> surv)
  = ((vectors, None), w2) ->
  length vectors ≠ length surv ->
  ∃ st',
    AddDocuments s docs options st
    = Some ((None, Some (errors_New
        "number of vectors from embedder does not match number of documents")),
        st')
    ∧ heap st' = heap st
    ∧ ∃ new, calls st' = calls st ++ new
             ∧ Forall (fun c => is_rpc c = false) new.
Proof.
  intros Hd Hne Hemb Hlen.
  destruct (deduplicate_log _ _ _ _ _ _ Hd) as (Hh & _ & asks & Hcalls & Hasks).
  rewrite (AddDocuments_embedded s docs options st surv st1 Hd Hne).
  cbn zeta. rewrite Hemb.
  apply Nat.eqb_neq in Hlen. rewrite Hlen. cbn [negb].
  eexists. split; [reflexivity|]. split; [done|].
  exists (asks ++ [CallEmbedDocuments (PageContent <$> surv)]).
  cbn. rewrite Hcalls, <- app_assoc. split; [done|].
  apply Forall_app. split.
  - eapply Forall_impl; [exact Hasks|]. intros c Hc.
    by destruct (dedup_call_internal c Hc).
  - by repeat constructor.
Qed.



(** ** Properties of the searches *)

Lemma SFleb_not_gt x y : SFleb x y = true -> SFltb y x = false.
Proof.
  unfold SFleb, SFltb, SFcompare.
  destruct x as [sx|sx| |sx mx ex], y as [sy|sy| |sy my ey];
    try destruct sx; try destruct sy; try done.
  - rewrite (Z.compare_antisym ex ey).
    destruct (ex ?= ey)%Z; cbn [CompOpp]; try done.
    change (Pos.compare_cont Eq my mx) with (Pos.compare my mx).
    change (Pos.compare_cont Eq mx my) with (Pos.compare mx my).
    rewrite (Pos.compare_antisym mx my).
    by destruct (mx ?= my)%positive.
  - rewrite (Z.compare_antisym ex ey).
    destruct (ex ?= ey)%Z; cbn [CompOpp]; try done.
    change (Pos.compare_cont Eq my mx) with (Pos.compare my mx).
    change (Pos.compare_cont Eq mx my) with (Pos.compare mx my).
    rewrite (Pos.compare_antisym mx my).
    by destruct (mx ?= my)%positive.
Qed.

Lemma getFilters_id s opts : getFilters s opts = Filters opts.
Proof. unfold getFilters. by destruct (Filters opts). Qed.

Lemma getScoreThreshold_in_range s opts :
  f32_le f32_zero (ScoreThreshold opts) = true ->
  f32_le (ScoreThreshold opts) f32_one = true ->
  getScoreThreshold s opts = (ScoreThreshold opts, None).
Proof.
  unfold f32_le, getScoreThreshold, f32_lt, f32_gt. intros H0 H1.
  by rewrite (SFleb_not_gt _ _ H0), (SFleb_not_gt _ _ H1).
Qed.

Lemma getScoreThreshold_out_of_range s opts :
  f32_lt (ScoreThreshold opts) f32_zero = true
  ∨ f32_gt (ScoreThreshold opts) f32_one = true ->
  getScoreThreshold s opts
  = (f32_zero, Some (errors_New "score threshold must be between 0 and 1")).
Proof.
  unfold getScoreThreshold. intros [-> | ->]; [done|].
  by rewrite orb_true_r.
Qed.

(** A run of [SimilaritySearch] whose threshold passed validation. *)
Lemma SimilaritySearch_validated s query numDocuments options st t :
  getScoreThreshold s (getOptions s options) = (t, None) ->
  ∃ res st',
    SimilaritySearch s query numDocuments options st = Some (res, st')
    ∧ let '((vector, err), w1) := EmbedQuery (embedder s) (world st) query in
      match err with
      | Some e => res = (None, Some e)
                  ∧ calls st' = calls st ++ [CallEmbedQuery query]
      | None => calls st'
                = calls st
                  ++ [CallEmbedQuery query;
                      CallSearchPoints (qdrantURL s) vector numDocuments t
                        (Filters (getOptions s options))]
      end.
Proof.
  intros Ht. unfold SimilaritySearch. rewrite Ht, getFilters_id.
  unfold bind, call_EmbedQuery.
  destruct (EmbedQuery _ _ _) as [[vector [e|]] w1].
  - eexists _, _. split; [reflexivity|]. done.
  - unfold call_searchPoints. cbn [heap world called].
    destruct (searchPoints _ _ _ _ _ _ _ _) as [res [h w]].
    eexists _, _. split; [reflexivity|]. cbn. by rewrite <- app_assoc.
Qed.

(** C4: a resolved score threshold below 0 or above 1 makes
    [SimilaritySearch] return the validation error with the state as it was
    (no call to the embedder or to the backend); a threshold between 0 and 1
    passes validation unchanged, the search always returns, and the threshold
    handed to the backend search is that same value. *)
Theorem SimilaritySearch_threshold_validated (s : Store) (query : string)
    (numDocuments : Z) (options : list Option_) (st : State) :
  let opts := getOptions s options in
  let t := ScoreThreshold opts in
  (f32_lt t f32_zero = true ∨ f32_gt t f32_one = true ->
   SimilaritySearch s query numDocuments options st
   = Some ((None, Some (errors_New "score threshold must be between 0 and 1")),
           st))
  ∧ (f32_le f32_zero t = true ∧ f32_le t f32_one = true ->
     getScoreThreshold s opts = (t, None)
     ∧ ∃ res st',
         SimilaritySearch s query numDocuments options st = Some (res, st')
         ∧ let '((vector, err), w1) := EmbedQuery (embedder s) (world st) query in
           match err with
           | Some e => res = (None, Some e)
                       ∧ calls st' = calls st ++ [CallEmbedQuery query]
           | None => calls st'
                     = calls st
                       ++ [CallEmbedQuery query;
                           CallSearchPoints (qdrantURL s) vector numDocuments t
                             (Filters opts)]
           end).
Proof.
  intros opts t. split.
  - intros Hout. unfold SimilaritySearch. fold opts.
    by rewrite (getScoreThreshold_out_of_range s opts Hout).
  - intros [H0 H1].
    pose proof (getScoreThreshold_in_range s opts H0 H1) as Ht.
    split; [exact Ht|].
    exact (SimilaritySearch_validated s query numDocuments options st t Ht).
Qed.

(** C9: [PayloadSearch] always returns what the scroll RPC returns; the one
    call it makes is that scroll, bounded by [numDocuments] and with the
    filter of the options; an option list that differs only in the score
    threshold, whatever its value, gives the same run. *)
Theorem PayloadSearch_scroll_only (s : Store) (numDocuments : Z)
    (options : list Option_) (st : State) :
  (∃ res st',
     PayloadSearch s numDocuments options st = Some (res, st')
     ∧ res = (scroll backend (heap st) (world st) (qdrantURL s) numDocuments
                (Filters (getOptions s options))).1
     ∧ calls st'
       = calls st
         ++ [CallScroll (qdrantURL s) numDocuments
               (Filters (getOptions s options))])
  ∧ ∀ t : float32,
      PayloadSearch s numDocuments (options ++ [WithScoreThreshold t]) st
      = PayloadSearch s numDocuments options st.
Proof.
  split.
  - unfold PayloadSearch, call_scroll. rewrite getFilters_id.
    destruct (scroll _ _ _ _ _ _) as [res [h w]].
    eexists _, _. split; [reflexivity|]. done.
  - intros t. unfold PayloadSearch, getOptions.
    rewrite foldl_snoc, !getFilters_id. reflexivity.
Qed.

(** The command the redis builder emits, written out. *)
Lemma AsMetadataSearchCommand_shape (r : redisvector.IndexVectorSearch) :
  redisvector.AsMetadataSearchCommand r
  = ["FT.SEARCH"%string; redisvector.index r;
     if (0 <? String.length (redisvector.preFilters r))%nat
     then redisvector.preFilters r else "*"%string]
    ++ (if (0 <? length (redisvector.returns r))%nat
        then "RETURN"%string
             :: redisvector.Itoa (Z.of_nat (length (redisvector.returns r)))
             :: redisvector.returns r
        else [])
    ++ ["DIALECT"%string; "2"%string; "LIMIT"%string;
        redisvector.Itoa (redisvector.offset r);
        redisvector.Itoa (if (redisvector.limit r =? 0)%Z then 1%Z
                          else redisvector.limit r)].
Proof.
  unfold redisvector.AsMetadataSearchCommand.
  destruct (redisvector.limit r =? 0)%Z eqn:Hlim; cbn [redisvector.set_limit
    redisvector.index redisvector.returns redisvector.preFilters
    redisvector.offset redisvector.limit];
    destruct (0 <? length (redisvector.returns r))%nat;
    cbn [app]; rewrite <- ?app_assoc; reflexivity.
Qed.

(** C2, as the code has it: with no filter option set the filter handed to
    the backend is nil, by [getFilters], in the similarity search and in the
    payload search, both of which always return; the wildcard is what the
    redis metadata search command carries when it has no pre-filter. *)
Theorem no_filter_is_nil (s : Store) (query : string) (numDocuments : Z)
    (options : list Option_) (st : State) :
  Filters (getOptions s options) = None ->
  getFilters s (getOptions s options) = None
  ∧ (∃ res st',
       PayloadSearch s numDocuments options st = Some (res, st')
       ∧ calls st' = calls st ++ [CallScroll (qdrantURL s) numDocuments None])
  ∧ (∃ res st' new,
       SimilaritySearch s query numDocuments options st = Some (res, st')
       ∧ calls st' = calls st ++ new
       ∧ ∀ c filters, c ∈ new -> filters_of c = Some filters -> filters = None)
  ∧ ∀ r : redisvector.IndexVectorSearch,
      redisvector.preFilters r = EmptyString ->
      redisvector.AsMetadataSearchCommand r !! 2%nat = Some "*"%string.
Proof.
  intros Hnil. split; [by rewrite getFilters_id|]. split; [|split].
  - unfold PayloadSearch, call_scroll. rewrite getFilters_id, Hnil.
    destruct (scroll _ _ _ _ _ _) as [res [h w]].
    eexists _, _. split; [reflexivity|]. done.
  - destruct (getScoreThreshold s (getOptions s options)) as [t [e|]] eqn:Ht.
    + unfold SimilaritySearch. rewrite Ht. exists (None, Some e), st, [].
      split; [done|]. split; [by rewrite app_nil_r|].
      intros c filters Hin. by apply elem_of_nil in Hin.
    + destruct (SimilaritySearch_validated s query numDocuments options st t Ht)
        as (res & st' & Hrun & Hcalls).
      rewrite Hnil in Hcalls.
      destruct (EmbedQuery _ _ _) as [[vector [e|]] w1].
      * destruct Hcalls as [_ Hcalls].
        exists res, st', [CallEmbedQuery query]. split; [done|].
        split; [done|]. intros c filters Hin Hf.
        apply list_elem_of_singleton in Hin. by subst c.
      * eexists res, st', _. split; [done|]. split; [exact Hcalls|].
        intros c filters Hin Hf.
        apply elem_of_cons in Hin as [->|Hin]; [done|].
        apply list_elem_of_singleton in Hin. subst c. cbn in Hf. congruence.
  - intros r Hr. rewrite AsMetadataSearchCommand_shape, Hr. reflexivity.
Qed.

(** ** Further properties of the store *)

(** *** How [AddDocuments] allocates and what it returns *)

Lemma build_payloads_cons key d docs h :
  build_payloads key (d :: docs) h
  = (fresh (dom h)
       :: (build_payloads key docs (<[fresh (dom h) := payload_of key h d]> h)).1,
     (build_payloads key docs (<[fresh (dom h) := payload_of key h d]> h)).2).
Proof. cbn [build_payloads]. by destruct (build_payloads key docs _). Qed.

Lemma build_payloads_dom key docs : ∀ h,
  dom (build_payloads key docs h).2
  = dom h ∪ list_to_set (build_payloads key docs h).1.
Proof.
  induction docs as [|d docs IH]; intros h.
  - cbn. set_solver.
  - rewrite build_payloads_cons. cbn [fst snd].
    rewrite IH, dom_insert_L. cbn [list_to_set]. set_solver.
Qed.

Lemma build_payloads_fresh key docs : ∀ h l,
  l ∈ (build_payloads key docs h).1 -> h !! l = None.
Proof.
  induction docs as [|d docs IH]; intros h l Hin.
  - cbn in Hin. by apply elem_of_nil in Hin.
  - rewrite build_payloads_cons in Hin. cbn [fst] in Hin.
    apply elem_of_cons in Hin as [->|Hin]; [apply fresh_loc_None|].
    apply IH in Hin. eapply lookup_weaken_None; [exact Hin|].
    apply insert_subseteq, fresh_loc_None.
Qed.

Lemma build_payloads_NoDup key docs : ∀ h, NoDup (build_payloads key docs h).1.
Proof.
  induction docs as [|d docs IH]; intros h.
  - constructor.
  - rewrite build_payloads_cons. cbn [fst]. constructor; [|apply IH].
    intros Hin. apply build_payloads_fresh in Hin.
    by rewrite lookup_insert_eq in Hin.
Qed.

(** The run that reaches the upsert, with the references it allocates. *)
Lemma AddDocuments_upserted_build s docs options st surv st1 vectors w2 :
  deduplicate s (getOptions s options) docs st = Some (surv, st1) ->
  surv ≠ [] ->
  docs_allocated (heap st1) surv ->
  EmbedDocuments (embedder s) (world st1) (PageContent <$> surv)
  = ((vectors, None), w2) ->
  length vectors = length surv ->
  AddDocuments s docs options st
  = (let built := build_payloads (contentKey s) surv (heap st1) in
     let payloads := payload_of (contentKey s) (heap st1) <$> surv in
     let up := upsertPoints backend w2 (qdrantURL s) vectors payloads in
     Some (up.1, called (CallUpsertPoints (qdrantURL s) vectors built.1 payloads)
                   up.2
                   (set_heap built.2
                      (called (CallEmbedDocuments (PageContent <$> surv)) w2
                         st1)))).
Proof.
  intros Hd Hne Hwf Hemb Hlen.
  rewrite (AddDocuments_embedded s docs options st surv st1 Hd Hne).
  cbn zeta. rewrite Hemb.
  apply Nat.eqb_eq in Hlen. rewrite Hlen. cbn [negb].
  set (st2 := called (CallEmbedDocuments (PageContent <$> surv)) w2 st1).
  destruct (payloads_built (contentKey s) surv st2 Hwf)
    as (refs & h' & Hloop & _ & _ & _ & HmapM).
  pose proof (payload_loop (contentKey s) surv (PageContent <$> surv) surv 0 []
                st2) as Hbuild.
  rewrite Hloop in Hbuild.
  assert (Hsame : Some (refs, set_heap h' st2)
                  = Some ((build_payloads (contentKey s) surv (heap st2)).1,
                          set_heap (build_payloads (contentKey s) surv (heap st2)).2
                            st2)).
  { apply Hbuild; [|done]. intros j d Hj. cbn. split; [done|].
    by rewrite list_lookup_fmap, Hj. }
  inversion Hsame as [[Hrefs Hheap]]. clear Hsame Hbuild.
  unfold bind at 1. rewrite Hloop.
  unfold call_upsertPoints. cbn [heap set_heap world called].
  cbn [heap called st2] in HmapM. rewrite HmapM.
  destruct (upsertPoints _ _ _ _ _) as [r w3]. cbn [fst snd].
  cbn [heap called st2] in Hrefs, Hheap. by rewrite Hrefs, Hheap.
Qed.

(** X1: An empty batch is a no-op: nothing is asked of the predicate either. *)
Theorem AddDocuments_empty_batch (s : Store) (options : list Option_)
    (st : State) :
  AddDocuments s [] options st = Some ((None, None), st).
Proof.
  apply AddDocuments_nothing. unfold deduplicate.
  by destruct (Deduplicater (getOptions s options)).
Qed.

(** X2: [AddDocuments] reads nothing of its options but the deduplicater: it
    validates no score threshold and uses no filter. *)
Theorem AddDocuments_reads_deduplicater_only (s : Store)
    (docs : list Document) (options options' : list Option_) (st : State) :
  Deduplicater (getOptions s options) = Deduplicater (getOptions s options') ->
  AddDocuments s docs options st = AddDocuments s docs options' st.
Proof.
  intros Heq. unfold AddDocuments, deduplicate. by rewrite Heq.
Qed.

(** X3: An error of the embedder is returned as it is, with no IDs, and the run
    makes no backend RPC and leaves the heap alone. *)
Theorem AddDocuments_embedder_error (s : Store) (docs : list Document)
    (options : list Option_) (st : State)
    (surv : list Document) (st1 : State) (vectors : list Vector) (e : error)
    (w2 : World) :
  deduplicate s (getOptions s options) docs st = Some (surv, st1) ->
  surv ≠ [] ->
  EmbedDocuments (embedder s) (world st1) (PageContent <$> surv)
  = ((vectors, Some e), w2) ->
  ∃ st',
    AddDocuments s docs options st = Some ((None, Some e), st')
    ∧ heap st' = heap st
    ∧ world st' = w2
    ∧ ∃ new, calls st' = calls st ++ new
             ∧ Forall (fun c => is_rpc c = false) new.
Proof.
  intros Hd Hne Hemb.
  destruct (deduplicate_log _ _ _ _ _ _ Hd) as (Hh & _ & asks & Hcalls & Hasks).
  rewrite (AddDocuments_embedded s docs options st surv st1 Hd Hne).
  cbn zeta. rewrite Hemb.
  eexists. split; [reflexivity|]. split; [done|]. split; [done|].
  exists (asks ++ [CallEmbedDocuments (PageContent <$> surv)]).
  cbn. rewrite Hcalls, <- app_assoc. split; [done|].
  apply Forall_app. split.
  - eapply Forall_impl; [exact Hasks|]. intros c Hc.
    by destruct (dedup_call_internal c Hc).
  - by repeat constructor.
Qed.


(** X5: The payload maps handed to the upsert are pairwise distinct maps, none
    of which existed before the call, one per surviving document; they are
    all the call adds to the heap. *)
Theorem AddDocuments_fresh_payload_maps (s : Store) (docs : list Document)
    (options : list Option_) (st : State)
    (surv : list Document) (st1 : State) (vectors : list Vector) (w2 : World) :
  deduplicate s (getOptions s options) docs st = Some (surv, st1) ->
  surv ≠ [] ->
  docs_allocated (heap st) docs ->
  EmbedDocuments (embedder s) (world st1) (PageContent <$> surv)
  = ((vectors, None), w2) ->
  length vectors = length surv ->
  ∃ res st' refs payloads,
    AddDocuments s docs options st = Some (res, st')
    ∧ last (calls st')
      = Some (CallUpsertPoints (qdrantURL s) vectors refs payloads)
    ∧ length refs = length surv
    ∧ NoDup refs
    ∧ Forall (fun l => heap st !! l = None) refs
    ∧ dom (heap st') = dom (heap st) ∪ list_to_set refs.
Proof.
  intros Hd Hne Hwf Hemb Hlen.
  destruct (deduplicate_log _ _ _ _ _ _ Hd) as (Hh & _ & _).
  pose proof (survivors_allocated _ _ _ _ _ _ Hd Hwf) as Hwf1.
  rewrite (AddDocuments_upserted_build s docs options st surv st1 vectors w2
             Hd Hne Hwf1 Hemb Hlen).
  cbn zeta. eexists _, _, _, _. split; [reflexivity|].
  cbn [calls called heap set_heap]. split; [apply last_snoc|].
  pose proof (build_payloads_spec (contentKey s) surv (heap st1) Hwf1) as Hspec.
  destruct (build_payloads (contentKey s) surv (heap st1)) as [refs h'] eqn:Hb.
  destruct Hspec as (Hrefs & _ & _). cbn [fst snd].
  split; [done|].
  pose proof (build_payloads_NoDup (contentKey s) surv (heap st1)) as Hnd.
  pose proof (build_payloads_fresh (contentKey s) surv (heap st1)) as Hfr.
  pose proof (build_payloads_dom (contentKey s) surv (heap st1)) as Hdom.
  rewrite Hb in Hnd, Hfr, Hdom. cbn [fst snd] in Hnd, Hfr, Hdom.
  split; [done|]. rewrite <- Hh. split; [|done].
  apply Forall_forall. intros l Hl. by apply Hfr.
Qed.

(** *** What [SimilaritySearch] returns *)

(** X6: An error of the embedder is returned as it is, with no documents, and
    the backend is not searched. *)
Theorem SimilaritySearch_embedder_error (s : Store) (query : string)
    (numDocuments : Z) (options : list Option_) (st : State)
    (t : float32) (vector : Vector) (e : error) (w1 : World) :
  getScoreThreshold s (getOptions s options) = (t, None) ->
  EmbedQuery (embedder s) (world st) query = ((vector, Some e), w1) ->
  SimilaritySearch s query numDocuments options st
  = Some ((None, Some e), called (CallEmbedQuery query) w1 st).
Proof.
  intros Ht Hemb. unfold SimilaritySearch. rewrite Ht.
  unfold bind, call_EmbedQuery. by rewrite Hemb.
Qed.

(** X7: With a valid threshold and a query vector, what [SimilaritySearch]
    returns is what the backend search returns for that vector, the given
    number of documents, the threshold and the filter of the options:
    documents (in the backend's order) and error alike. *)
Theorem SimilaritySearch_returns_search_result (s : Store) (query : string)
    (numDocuments : Z) (options : list Option_) (st : State)
    (t : float32) (vector : Vector) (w1 : World) :
  getScoreThreshold s (getOptions s options) = (t, None) ->
  EmbedQuery (embedder s) (world st) query = ((vector, None), w1) ->
  let found := searchPoints backend (heap st) w1 (qdrantURL s) vector
                 numDocuments t (Filters (getOptions s options)) in
  ∃ st',
    SimilaritySearch s query numDocuments options st = Some (found.1, st')
    ∧ heap st' = found.2.1
    ∧ world st' = found.2.2
    ∧ calls st'
      = calls st
        ++ [CallEmbedQuery query;
            CallSearchPoints (qdrantURL s) vector numDocuments t
              (Filters (getOptions s options))].
Proof.
  intros Ht Hemb found. unfold SimilaritySearch. rewrite Ht, getFilters_id.
  unfold bind, call_EmbedQuery. rewrite Hemb.
  unfold call_searchPoints. cbn [heap world called]. fold found.
  destruct found as [res [h w]].
  eexists. split; [reflexivity|]. cbn. by rewrite <- app_assoc.
Qed.

Lemma SFleb_negb_ltb x y :
  x ≠ S754_nan -> y ≠ S754_nan -> SFleb x y = negb (SFltb y x).
Proof.
  intros Hx Hy. unfold SFleb, SFltb, SFcompare.
  destruct x as [sx|sx| |sx mx ex], y as [sy|sy| |sy my ey];
    try done; try destruct sx; try destruct sy; try done.
  - rewrite (Z.compare_antisym ex ey).
    destruct (ex ?= ey)%Z; cbn [CompOpp]; try done.
    change (Pos.compare_cont Eq my mx) with (Pos.compare my mx).
    change (Pos.compare_cont Eq mx my) with (Pos.compare mx my).
    rewrite (Pos.compare_antisym mx my).
    by destruct (mx ?= my)%positive.
  - rewrite (Z.compare_antisym ex ey).
    destruct (ex ?= ey)%Z; cbn [CompOpp]; try done.
    change (Pos.compare_cont Eq my mx) with (Pos.compare my mx).
    change (Pos.compare_cont Eq mx my) with (Pos.compare mx my).
    rewrite (Pos.compare_antisym mx my).
    by destruct (mx ?= my)%positive.
Qed.

(** X8: For a threshold that is a number, validation passes exactly when the
    threshold lies between 0 and 1, bounds included. *)
Theorem getScoreThreshold_accepts_iff (s : Store) (opts : Options) :
  ScoreThreshold opts ≠ S754_nan ->
  (getScoreThreshold s opts).2 = None
  ↔ f32_le f32_zero (ScoreThreshold opts) = true
    ∧ f32_le (ScoreThreshold opts) f32_one = true.
Proof.
  intros Hnan. unfold getScoreThreshold, f32_le, f32_lt, f32_gt.
  rewrite (SFleb_negb_ltb f32_zero (ScoreThreshold opts)) by done.
  rewrite (SFleb_negb_ltb (ScoreThreshold opts) f32_one) by done.
  destruct (SFltb (ScoreThreshold opts) f32_zero),
    (SFltb f32_one (ScoreThreshold opts)); cbn; split;
    first [done | by intros [? ?]].
Qed.

(** X9: A threshold that is not a number is not refused: both comparisons are
    false, so the search goes on to the embedder with that threshold. *)
Theorem SimilaritySearch_nan_threshold (s : Store) (query : string)
    (numDocuments : Z) (options : list Option_) (st : State) :
  ScoreThreshold (getOptions s options) = S754_nan ->
  getScoreThreshold s (getOptions s options) = (S754_nan, None)
  ∧ ∃ res st' rest,
      SimilaritySearch s query numDocuments options st = Some (res, st')
      ∧ calls st' = calls st ++ CallEmbedQuery query :: rest.
Proof.
  intros Hnan.
  assert (Ht : getScoreThreshold s (getOptions s options) = (S754_nan, None)).
  { unfold getScoreThreshold. by rewrite Hnan. }
  split; [exact Ht|].
  destruct (SimilaritySearch_validated s query numDocuments options st _ Ht)
    as (res & st' & Hrun & Hcalls).
  destruct (EmbedQuery _ _ _) as [[vector [e|]] w1].
  - destruct Hcalls as [_ Hcalls]. by exists res, st', [].
  - by eexists res, st', [_].
Qed.

(** *** How [deduplicate] composes *)

Lemma range_loop_app {A B} (body : A -> B -> M B) (xs ys : list A) :
  ∀ acc st,
    range_loop (xs ++ ys) body acc st
    = (do acc' <- range_loop xs body acc; range_loop ys body acc') st.
Proof.
  induction xs as [|x xs IH]; intros acc st; [reflexivity|].
  cbn [app range_loop]. unfold bind.
  destruct (body x acc st) as [[acc1 st1]|]; [|reflexivity].
  rewrite IH. reflexivity.
Qed.

Lemma dedup_loop_cons (dedup : DeduplicaterFunc) d docs acc st :
  range_loop (d :: docs) (dedup_body dedup) acc st
  = range_loop docs (dedup_body dedup)
      (if (dedup (heap st) (world st) d).1 then acc else acc ++ [d])
      (called (CallDeduplicater d (dedup (heap st) (world st) d).1)
         (dedup (heap st) (world st) d).2 st).
Proof.
  cbn [range_loop]. unfold bind at 1 2. unfold call_Deduplicater at 1.
  by destruct (dedup (heap st) (world st) d) as [[] w1].
Qed.

Lemma dedup_loop_acc (dedup : DeduplicaterFunc) docs : ∀ acc st,
  range_loop docs (dedup_body dedup) acc st
  = match range_loop docs (dedup_body dedup) [] st with
    | Some (kept_docs, st') => Some (acc ++ kept_docs, st')
    | None => None
    end.
Proof.
  induction docs as [|d docs IH]; intros acc st.
  - cbn. unfold ret. by rewrite app_nil_r.
  - rewrite !dedup_loop_cons.
    destruct (dedup (heap st) (world st) d) as [[] w1]; cbn [fst snd].
    + apply IH.
    + rewrite (IH (acc ++ [d])), (IH ([] ++ [d])).
      destruct (range_loop docs _ [] _) as [[r st']|]; [|done].
      by rewrite <- app_assoc.
Qed.

(** X10: Deduplicating a batch is deduplicating its two halves one after the
    other and appending the results: splitting a batch changes nothing. *)
Theorem deduplicate_app (s : Store) (opts : Options)
    (xs ys : list Document) (st : State) :
  deduplicate s opts (xs ++ ys) st
  = (do kept_xs <- deduplicate s opts xs;
     do kept_ys <- deduplicate s opts ys;
     ret (kept_xs ++ kept_ys)) st.
Proof.
  unfold deduplicate. destruct (Deduplicater opts) as [dedup|]; [|done].
  rewrite range_loop_app.
  match goal with |- context [range_loop xs ?b] => set (body := b) end.
  unfold bind.
  destruct (range_loop xs body [] st) as [[kept_xs st1]|]; [|done].
  subst body. rewrite dedup_loop_acc.
  by destruct (range_loop ys _ [] st1) as [[kept_ys st2]|].
Qed.

(** X11: With a predicate that is a function of the document, deduplicating the
    result once more changes nothing. *)
Theorem deduplicate_idempotent (s : Store) (opts : Options)
    (dedup : DeduplicaterFunc) (f : Document -> bool)
    (docs surv : list Document) (st st1 : State) :
  Deduplicater opts = Some dedup ->
  (∀ h w d, dedup h w d = (f d, w)) ->
  deduplicate s opts docs st = Some (surv, st1) ->
  ∃ st2, deduplicate s opts surv st1 = Some (surv, st2).
Proof.
  intros Hopt Hpure Hrun.
  destruct (deduplicate_run s opts docs st) as (surv' & st1' & Hrun' & _ & Hcase).
  rewrite Hrun in Hrun'. inversion Hrun'; subst surv' st1'. clear Hrun'.
  rewrite Hopt in Hcase. destruct Hcase as (bs & Hasked & _ & Hsurv & _).
  destruct (asked_pure f dedup _ Hpure _ _ _ _ Hasked) as [-> _].
  rewrite kept_pure in Hsurv.
  destruct (deduplicate_run s opts surv st1) as (again & st2 & Hrun2 & _ & Hcase).
  rewrite Hopt in Hcase. destruct Hcase as (bs2 & Hasked2 & _ & Hagain & _).
  destruct (asked_pure f dedup _ Hpure _ _ _ _ Hasked2) as [-> _].
  rewrite kept_pure in Hagain.
  exists st2. rewrite Hrun2, Hagain. do 2 f_equal.
  rewrite Hsurv. apply list_filter_filter_l. done.
Qed.

End Qdrant.

(** ** The length check of [CreateEmbedding] *)

(** C8: [CreateEmbedding] returns without error only when the client
    returned without error as many embeddings as there are input texts (and
    then it returns exactly those); when the client returns without error an
    empty result or a result of another length, [CreateEmbedding] returns an
    error. *)
Theorem CreateEmbedding_length_checked {World : Type}
    (o : @vertexai.LLM World) (inputTexts : list string) (w : World) :
  (∀ result w',
     vertexai.CreateEmbedding o inputTexts w = ((result, None), w') ->
     vertexai.client_CreateEmbedding (vertexai.client o) w
       {| vertexai.Input := inputTexts |} = ((result, None), w')
     ∧ length result = length inputTexts
     ∧ result ≠ [])
  ∧ (∀ embeddings w',
       vertexai.client_CreateEmbedding (vertexai.client o) w
         {| vertexai.Input := inputTexts |} = ((embeddings, None), w') ->
       embeddings = [] ∨ length embeddings ≠ length inputTexts ->
       ∃ result e,
         vertexai.CreateEmbedding o inputTexts w = ((result, Some e), w')
         ∧ e = (if (length embeddings =? 0)%nat
                then vertexai.ErrEmptyResponse
                else vertexai.ErrUnexpectedResponseLength)).
Proof.
  unfold vertexai.CreateEmbedding. split.
  - intros result w' Hrun.
    destruct (vertexai.client_CreateEmbedding _ _ _)
      as [[embeddings [e|]] w1]; [discriminate Hrun|].
    destruct (length embeddings =? 0)%nat eqn:Hzero; [discriminate Hrun|].
    destruct (length inputTexts =? length embeddings)%nat eqn:Hlen;
      [|discriminate Hrun].
    cbn in Hrun. inversion Hrun; subst result w'.
    apply Nat.eqb_eq in Hlen. apply Nat.eqb_neq in Hzero.
    split; [done|]. split; [done|]. by destruct embeddings.
  - intros embeddings w' Hclient Hbad. rewrite Hclient.
    destruct (length embeddings =? 0)%nat eqn:Hzero.
    { by eexists _, _. }
    destruct Hbad as [-> | Hlen]; [discriminate Hzero|].
    assert ((length inputTexts =? length embeddings)%nat = false) as ->
      by (apply Nat.eqb_neq; congruence).
    by eexists _, _.
Qed.

(** ** The limit of the redis metadata search command *)

(** C10, as the code has it: the command always ends with [DIALECT 2] and
    [LIMIT offset count], where [count] is the configured limit, except that
    a limit of 0 is replaced by 1; the count is therefore never 0, and it
    is [max limit 1] whenever the limit is not negative. *)
Theorem AsMetadataSearchCommand_limit (r : redisvector.IndexVectorSearch) :
  let count := (if (redisvector.limit r =? 0)%Z then 1 else redisvector.limit r)%Z in
  (∃ front,
     redisvector.AsMetadataSearchCommand r
     = front ++ ["DIALECT"%string; "2"%string; "LIMIT"%string;
                 redisvector.Itoa (redisvector.offset r);
                 redisvector.Itoa count])
  ∧ redisvector.Itoa count ≠ "0"%string
  ∧ last (redisvector.AsMetadataSearchCommand r) = Some (redisvector.Itoa count)
  ∧ ((0 <= redisvector.limit r)%Z ->
     count = Z.max (redisvector.limit r) 1).
Proof.
  intros count.
  assert (Hcount : count ≠ 0%Z).
  { unfold count. destruct (redisvector.limit r =? 0)%Z eqn:E; [done|].
    by apply Z.eqb_neq. }
  rewrite AsMetadataSearchCommand_shape. fold count. split; [|split; [|split]].
  - eexists. rewrite app_assoc. reflexivity.
  - unfold redisvector.Itoa. change "0"%string with (pretty 0%Z).
    intros Heq. by apply (inj pretty) in Heq.
  - rewrite !app_assoc.
    change ["DIALECT"%string; "2"%string; "LIMIT"%string;
            redisvector.Itoa (redisvector.offset r); redisvector.Itoa count]
      with (["DIALECT"%string; "2"%string; "LIMIT"%string;
             redisvector.Itoa (redisvector.offset r)]
            ++ [redisvector.Itoa count]).
    rewrite app_assoc. apply last_snoc.
  - intros Hpos. unfold count.
    destruct (redisvector.limit r =? 0)%Z eqn:E.
    + apply Z.eqb_eq in E. rewrite E. reflexivity.
    + apply Z.eqb_neq in E. lia.
Qed.

(** ** Concrete runs *)

(** An embedder that returns one vector per text, a backend that accepts
    everything, and a store over them; the world is trivial. *)
Definition demo_embedder : @Embedder unit :=
  {| EmbedDocuments := fun w texts => ((map (fun _ => [f32_one]) texts, None), w);
     EmbedQuery := fun w _ => (([f32_one], None), w) |}.

(** An embedder that silently drops the vector of the first text. *)
Definition short_embedder : @Embedder unit :=
  {| EmbedDocuments := fun w texts =>
       ((map (fun _ => [f32_one]) (tail texts), None), w);
     EmbedQuery := fun w _ => (([f32_one], None), w) |}.

Definition demo_backend : @Backend unit :=
  {| upsertPoints := fun w _ vectors _ =>
       ((Some (map (fun _ => "id"%string) vectors), None), w);
     searchPoints := fun h w _ _ _ _ _ => ((Some [], None), (h, w));
     scroll := fun h w _ _ _ => ((Some [], None), (h, w)) |}.

Definition demo_store : @Store unit :=
  {| embedder := demo_embedder; collectionName := "docs";
     qdrantURL := "http://localhost:6333"; apiKey := "";
     contentKey := "content" |}.

Definition short_store : @Store unit :=
  {| embedder := short_embedder; collectionName := "docs";
     qdrantURL := "http://localhost:6333"; apiKey := "";
     contentKey := "content" |}.

Definition engineer : GoMap := {[ "job"%string := Some (VString "engineer") ]}.

Definition demo_heap : Heap := {[ 1%positive := engineer ]}.

Definition demo_state : @State unit :=
  {| heap := demo_heap; world := tt; calls := [] |}.

Definition hello : Document :=
  {| PageContent := "hello"; Metadata := Some 1%positive |}.

Definition bare : Document := {| PageContent := "bare"; Metadata := None |}.



(** A predicate that calls every document a duplicate, and one that only
    drops the documents without metadata. *)
Definition always_duplicate : @DeduplicaterFunc unit :=
  fun _ w _ => (true, w).

Definition no_metadata (d : Document) : bool :=
  match Metadata d with
  | Some _ => false
  | None => true
  end.

Definition drop_bare : @DeduplicaterFunc unit :=
  fun _ w d => (no_metadata d, w).

Definition all_dropped : @State unit :=
  {| heap := demo_heap; world := tt;
     calls := [CallDeduplicater hello true; CallDeduplicater bare true] |}.

(** The binary32 values 1.5 and 0.5. *)
Definition f32_one_and_half : float32 := S754_finite false 12582912 (-23).
Definition f32_half : float32 := S754_finite false 8388608 (-24).

Definition two_texts_client : @vertexai.PaLMClient unit :=
  {| vertexai.client_CreateEmbedding := fun w req =>
       ((map (fun _ => [f32_one]) (vertexai.Input req), None), w) |}.

Definition one_vector_client : @vertexai.PaLMClient unit :=
  {| vertexai.client_CreateEmbedding := fun w _ => (([[f32_one]], None), w) |}.

Definition negative_limit : redisvector.IndexVectorSearch :=
  {| redisvector.index := "users"; redisvector.returns := [];
     redisvector.preFilters := ""; redisvector.offset := 0;
     redisvector.limit := -5 |}.

Definition no_prefilter : redisvector.IndexVectorSearch :=
  {| redisvector.index := "users"; redisvector.returns := ["job"%string];
     redisvector.preFilters := ""; redisvector.offset := 0;
     redisvector.limit := 3 |}.

Definition zero_limit : redisvector.IndexVectorSearch :=
  {| redisvector.index := "users"; redisvector.returns := ["content"%string];
     redisvector.preFilters := "@job:(engineer)"; redisvector.offset := 0;
     redisvector.limit := 0 |}.

Lemma demo_docs_allocated : docs_allocated demo_heap [hello; bare].
Proof.
  intros d l Hin Hm.
  apply elem_of_cons in Hin as [->|Hin].
  - inversion Hm; subst l. by exists engineer.
  - apply list_elem_of_singleton in Hin. subst d. discriminate Hm.
Qed.


Ltac run := vm_compute; reflexivity.


(** No filter option: the backend search is handed the nil filter. *)
Lemma SimilaritySearch_hands_nil_filter :
  calls <$> (snd <$> SimilaritySearch demo_backend demo_store "query" 3 [] demo_state)
  = Some [CallEmbedQuery "query";
          CallSearchPoints "http://localhost:6333" [f32_one] 3 f32_zero None]
  ∧ calls <$> (snd <$> PayloadSearch demo_backend demo_store 3 [] demo_state)
    = Some [CallScroll "http://localhost:6333" 3 None]
  ∧ ¬ ∃ wildcard : value,
        getFilters demo_store (getOptions demo_store []) = Some wildcard.
Proof.
  split; [run|]. split; [run|]. intros [wildcard Hw]. discriminate Hw.
Qed.

Lemma no_filter_is_nil_witness :
  Filters (getOptions demo_store []) = None
  ∧ getFilters demo_store (getOptions demo_store []) = None
  ∧ redisvector.AsMetadataSearchCommand no_prefilter !! 2 = Some "*"%string.
Proof.
  assert (Hnil : Filters (getOptions demo_store []) = None) by reflexivity.
  destruct (no_filter_is_nil demo_backend demo_store "query" 3 [] demo_state Hnil)
    as (Hget & _ & _ & Hredis).
  split; [exact Hnil|]. split; [exact Hget|]. by apply Hredis.
Defined.

(** Two documents, one vector: the mismatch error and no upsert. *)
Lemma AddDocuments_length_mismatch_witness :
  ∃ st',
    AddDocuments demo_backend short_store [hello; bare] [] demo_state
    = Some ((None, Some (errors_New
        "number of vectors from embedder does not match number of documents")),
        st')
    ∧ heap st' = heap demo_state
    ∧ ∃ new, calls st' = calls demo_state ++ new
             ∧ Forall (fun c => is_rpc c = false) new.
Proof.
  apply (AddDocuments_length_mismatch demo_backend short_store [hello; bare] [] demo_state
           [hello; bare] demo_state [[f32_one]] tt).
  - reflexivity.
  - discriminate.
  - reflexivity.
  - cbn. lia.
Defined.

(** 1.5 is refused before any call; 0.5 is handed to the backend. *)
Lemma SimilaritySearch_threshold_witness :
  SimilaritySearch demo_backend demo_store "query" 3 [WithScoreThreshold f32_one_and_half]
    demo_state
  = Some ((None, Some (errors_New "score threshold must be between 0 and 1")),
          demo_state)
  ∧ getScoreThreshold demo_store
      (getOptions demo_store [WithScoreThreshold f32_half])
    = (f32_half, None).
Proof.
  split.
  - apply (proj1 (SimilaritySearch_threshold_validated demo_backend demo_store "query" 3
                    [WithScoreThreshold f32_one_and_half] demo_state)).
    right. reflexivity.
  - apply (proj2 (SimilaritySearch_threshold_validated demo_backend demo_store "query" 3
                    [WithScoreThreshold f32_half] demo_state)).
    split; reflexivity.
Defined.

(** Every document a duplicate: [(nil, nil)] and only predicate calls. *)
Lemma AddDocuments_no_survivors_witness :
  AddDocuments demo_backend demo_store [hello; bare] [WithDeduplicater always_duplicate]
    demo_state
  = Some ((None, None), all_dropped)
  ∧ heap all_dropped = heap demo_state
  ∧ ∃ asks, calls all_dropped = calls demo_state ++ asks
            ∧ Forall (fun c => is_embed c = false ∧ is_rpc c = false) asks.
Proof.
  apply (AddDocuments_no_survivors demo_backend demo_store [hello; bare]
           [WithDeduplicater always_duplicate] demo_state all_dropped).
  reflexivity.
Defined.


(** A predicate that is a function of the document filters the batch. *)
Lemma deduplicate_subsequence_witness :
  ∃ surv st1,
    deduplicate demo_store (getOptions demo_store [WithDeduplicater drop_bare])
      [bare; hello; bare] demo_state
    = Some (surv, st1)
    ∧ surv = [hello].
Proof.
  destruct (deduplicate_subsequence demo_store
              (getOptions demo_store [WithDeduplicater drop_bare])
              [bare; hello; bare] demo_state)
    as (surv & st1 & Hrun & _ & _ & _ & Hpure).
  exists surv, st1. split; [exact Hrun|].
  rewrite (Hpure no_metadata) by reflexivity. reflexivity.
Defined.

(** Two texts and two embeddings succeed; two texts and one embedding are
    the unexpected-length error. *)
Lemma CreateEmbedding_length_checked_witness :
  length (vertexai.CreateEmbedding {| vertexai.client := two_texts_client |}
            ["a"%string; "b"%string] tt).1.1 = 2
  ∧ ∃ result,
      vertexai.CreateEmbedding {| vertexai.client := one_vector_client |}
        ["a"%string; "b"%string] tt
      = ((result, Some vertexai.ErrUnexpectedResponseLength), tt).
Proof.
  split.
  - destruct (proj1 (CreateEmbedding_length_checked
                       {| vertexai.client := two_texts_client |}
                       ["a"%string; "b"%string] tt)
                [[f32_one]; [f32_one]] tt eq_refl) as (_ & Hlen & _).
    exact Hlen.
  - destruct (proj2 (CreateEmbedding_length_checked
                       {| vertexai.client := one_vector_client |}
                       ["a"%string; "b"%string] tt)
                [[f32_one]] tt eq_refl) as (result & e & Hrun & ->).
    + right. cbn. lia.
    + exists result. exact Hrun.
Defined.

(** A limit of -5 is emitted as it is, not as [max (-5) 1]. *)
Lemma AsMetadataSearchCommand_negative_limit :
  redisvector.AsMetadataSearchCommand negative_limit
  = ["FT.SEARCH"; "users"; "*"; "DIALECT"; "2"; "LIMIT"; "0"; "-5"]%string
  ∧ redisvector.Itoa (Z.max (redisvector.limit negative_limit) 1) = "1"%string
  ∧ ¬ ∃ front,
        redisvector.AsMetadataSearchCommand negative_limit
        = front ++ ["LIMIT"%string;
                    redisvector.Itoa (redisvector.offset negative_limit);
                    redisvector.Itoa
                      (Z.max (redisvector.limit negative_limit) 1)].
Proof.
  split; [run|]. split; [run|].
  intros [front Hfront].
  apply (f_equal last) in Hfront.
  change ["LIMIT"%string; redisvector.Itoa (redisvector.offset negative_limit);
          redisvector.Itoa (Z.max (redisvector.limit negative_limit) 1)]
    with (["LIMIT"%string; redisvector.Itoa (redisvector.offset negative_limit)]
          ++ [redisvector.Itoa (Z.max (redisvector.limit negative_limit) 1)])
    in Hfront.
  rewrite app_assoc, last_snoc in Hfront.
  vm_compute in Hfront. discriminate Hfront.
Qed.

(** A limit of 0 is emitted as 1. *)
Lemma AsMetadataSearchCommand_limit_witness :
  last (redisvector.AsMetadataSearchCommand zero_limit) = Some "1"%string
  ∧ (if (redisvector.limit zero_limit =? 0)%Z then 1
     else redisvector.limit zero_limit)%Z
    = Z.max (redisvector.limit zero_limit) 1.
Proof.
  destruct (AsMetadataSearchCommand_limit zero_limit) as (_ & _ & Hlast & Hmax).
  split; [exact Hlast|]. apply Hmax. cbn. lia.
Defined.

(** ** Further properties of the [vertexai] wrappers *)

Lemma foldl_snoc_fmap {A B} (f : A -> B) (l : list A) : ∀ acc,
  foldl (fun acc x => acc ++ [f x]) acc l = acc ++ (f <$> l).
Proof.
  induction l as [|x l IH]; intros acc; cbn.
  - by rewrite app_nil_r.
  - rewrite IH, <- app_assoc. reflexivity.
Qed.

(** X12: [LLM.Generate] sends the prompts with the options' limits, and turns
    the completions into generations one for one, in order, each carrying the
    completion's text and no message; an error of the client is returned
    with a nil slice. *)
Theorem LLM_Generate_one_per_completion {World : Type}
    (c : @vertexai.TextClient World) (prompts : list string)
    (options : list llms.CallOption) (w : World) :
  let opts := foldl (fun opts opt => opt opts) llms.CallOptions_zero options in
  let reply := vertexai.client_CreateCompletion c w
                 {| vertexai.Prompts := prompts;
                    vertexai.MaxTokens := llms.MaxTokens opts;
                    vertexai.Temperature := llms.Temperature opts |} in
  vertexai.LLM_Generate c prompts options w
  = ((match reply.1.2 with
      | Some _ => None
      | None =>
          Some ((fun r => {| llms.Text := vertexai.Text r; llms.Message := None |})
                <$> reply.1.1)
      end,
      reply.1.2),
     reply.2).
Proof.
  intros opts reply. unfold vertexai.LLM_Generate. fold opts. fold reply.
  destruct reply as [[results [e|]] w']; cbn [fst snd]; [done|].
  by rewrite foldl_snoc_fmap.
Qed.

(** X13: [LLM.Call] sends the one prompt and returns the text of the first
    completion; no completion at all is [ErrEmptyResponse], and an error of
    the client is returned with the empty string. *)
Theorem LLM_Call_first_completion {World : Type}
    (c : @vertexai.TextClient World) (prompt : string)
    (options : list llms.CallOption) (w : World) :
  let opts := foldl (fun opts opt => opt opts) llms.CallOptions_zero options in
  let reply := vertexai.client_CreateCompletion c w
                 {| vertexai.Prompts := [prompt];
                    vertexai.MaxTokens := llms.MaxTokens opts;
                    vertexai.Temperature := llms.Temperature opts |} in
  vertexai.LLM_Call c prompt options w
  = (match reply.1.2, reply.1.1 with
     | Some e, _ => (EmptyString, Some e)
     | None, [] => (EmptyString, Some vertexai.ErrEmptyResponse)
     | None, r :: _ => (vertexai.Text r, None)
     end,
     reply.2).
Proof.
  intros opts reply. unfold vertexai.LLM_Call, vertexai.LLM_Generate.
  fold opts. fold reply.
  destruct reply as [[results [e|]] w']; cbn [fst snd]; [done|].
  rewrite foldl_snoc_fmap. by destruct results.
Qed.

(** X14: Embedding an empty list of texts never succeeds: whatever the client
    answers, [CreateEmbedding] returns an error. *)
Theorem CreateEmbedding_empty_input_fails {World : Type}
    (o : @vertexai.LLM World) (w : World) :
  (vertexai.CreateEmbedding o [] w).1.2 ≠ None.
Proof.
  unfold vertexai.CreateEmbedding.
  destruct (vertexai.client_CreateEmbedding _ _ _) as [[embeddings [e|]] w'];
    [done|].
  by destruct embeddings.
Qed.

(** The message [toClientChatMessage] builds for one chat message: the
    name of a named message, else ["bot"] for system and AI messages,
    ["user"] for human, generic and function messages, and no author for any
    other type. *)
Definition author_of (m : schema.ChatMessage) : string :=
  match schema.GetName m with
  | Some n => n
  | None =>
      match schema.GetType m with
      | schema.ChatMessageTypeSystem | schema.ChatMessageTypeAI => "bot"
      | schema.ChatMessageTypeHuman | schema.ChatMessageTypeGeneric
      | schema.ChatMessageTypeFunction => "user"
      | schema.ChatMessageTypeOther _ => EmptyString
      end
  end.

Definition client_message (m : schema.ChatMessage) : vertexai.ChatMessage :=
  {| vertexai.Content := schema.GetContent m; vertexai.Author := author_of m |}.

Lemma toClientChatMessage_loop_fills (messages : list schema.ChatMessage) :
  ∀ (filled : list vertexai.ChatMessage),
    vertexai.toClientChatMessage_loop (length filled) messages
      ((Some <$> filled) ++ replicate (length messages) None)
    = Some (Some <$> (filled ++ (client_message <$> messages))).
Proof.
  induction messages as [|m messages IH]; intros filled.
  - cbn. by rewrite !app_nil_r.
  - cbn [vertexai.toClientChatMessage_loop length replicate].
    unfold vertexai.store_at.
    assert (Hlt : (length filled
                   <? length ((Some <$> filled)
                              ++ None :: replicate (length messages) None))%nat
                  = true).
    { apply Nat.ltb_lt. rewrite length_app, length_fmap. cbn. lia. }
    rewrite Hlt.
    rewrite insert_app_r_alt by (by rewrite length_fmap).
    rewrite length_fmap, Nat.sub_diag. cbn [insert list_insert].
    match goal with
    | |- context [Some ?msg :: replicate _ _] =>
        replace msg with (client_message m)
    end.
    2:{ unfold client_message, author_of, vertexai.set_Author.
        by destruct (schema.GetName m), (schema.GetType m). }
    replace (S (length filled)) with (length (filled ++ [client_message m]))
      by (rewrite length_app; cbn; lia).
    replace ((Some <$> filled)
             ++ Some (client_message m) :: replicate (length messages) None)
      with ((Some <$> (filled ++ [client_message m]))
            ++ replicate (length messages) None)
      by (by rewrite fmap_app, <- app_assoc).
    rewrite IH, <- app_assoc. reflexivity.
Qed.

(** X15: [toClientChatMessage] never runs out of range; it returns one non-nil
    message per chat message, in order, with the content unchanged and the
    author decided by the name if the message has one, by its type if not. *)
Theorem toClientChatMessage_spec (messages : list schema.ChatMessage) :
  ∃ msgs : list vertexai.ChatMessage,
    vertexai.toClientChatMessage messages = Some (Some <$> msgs)
    ∧ length msgs = length messages
    ∧ ∀ i m, messages !! i = Some m ->
        ∃ c, msgs !! i = Some c
             ∧ vertexai.Content c = schema.GetContent m
             ∧ vertexai.Author c = author_of m.
Proof.
  exists (client_message <$> messages). split.
  - unfold vertexai.toClientChatMessage.
    exact (toClientChatMessage_loop_fills messages []).
  - split; [by rewrite length_fmap|].
    intros i m Hi. exists (client_message m).
    by rewrite list_lookup_fmap, Hi.
Qed.

Lemma toClientChatMessage_messages (messages : list schema.ChatMessage) :
  vertexai.toClientChatMessage messages
  = Some (Some <$> (client_message <$> messages)).
Proof. exact (toClientChatMessage_loop_fills messages []). Qed.

(** One round of the loop of [Chat.Generate], written out. *)
Lemma Chat_Generate_loop_cons {World : Type} (c : @vertexai.TextClient World)
    opts messages rest generations w :
  vertexai.Chat_Generate_loop c opts (messages :: rest) generations w
  = (let reply := vertexai.client_CreateChat c w
                    {| vertexai.ChatTemperature := llms.Temperature opts;
                       vertexai.Messages :=
                         Some <$> (client_message <$> messages) |} in
     match reply.1.2, vertexai.Candidates reply.1.1 with
     | Some e, _ => Some ((None, Some e), reply.2)
     | None, [] => Some ((None, Some vertexai.ErrEmptyResponse), reply.2)
     | None, cand :: _ =>
         vertexai.Chat_Generate_loop c opts rest
           (generations
            ++ [ {| llms.Text := vertexai.Content cand;
                    llms.Message :=
                      Some {| schema.Content := vertexai.Content cand |} |} ])
           reply.2
     end).
Proof.
  cbn [vertexai.Chat_Generate_loop]. rewrite toClientChatMessage_messages.
  cbn zeta. by destruct (vertexai.client_CreateChat _ _ _) as [[result [e|]] w'].
Qed.

Lemma Chat_Generate_loop_outcome {World : Type}
    (c : @vertexai.TextClient World) opts messageSets :
  ∀ generations w,
    ∃ r err w',
      vertexai.Chat_Generate_loop c opts messageSets generations w
      = Some ((r, err), w')
      ∧ match err with
        | Some _ =>
            r = None
            ∧ ∀ later,
                vertexai.Chat_Generate_loop c opts (messageSets ++ later)
                  generations w
                = Some ((r, err), w')
        | None =>
            ∃ new,
              r = Some (generations ++ new)
              ∧ length new = length messageSets
              ∧ Forall (fun g => llms.Message g
                                 = Some {| schema.Content := llms.Text g |}) new
        end.
Proof.
  induction messageSets as [|messages rest IH]; intros generations w.
  - exists (Some generations), None, w. split; [done|]. exists [].
    by rewrite app_nil_r.
  - rewrite Chat_Generate_loop_cons. cbn zeta.
    destruct (vertexai.client_CreateChat c w _) as [[result [e|]] w1] eqn:Hreply;
      cbn [fst snd].
    { exists None, (Some e), w1. split; [done|]. split; [done|].
      intros later. cbn [app]. rewrite Chat_Generate_loop_cons. cbn zeta.
      by rewrite Hreply. }
    destruct (vertexai.Candidates result) as [|cand cands] eqn:Hcands.
    { exists None, (Some vertexai.ErrEmptyResponse), w1. split; [done|].
      split; [done|]. intros later. cbn [app].
      rewrite Chat_Generate_loop_cons. cbn zeta. rewrite Hreply. cbn [fst snd].
      by rewrite Hcands. }
    destruct (IH (generations
                  ++ [ {| llms.Text := vertexai.Content cand;
                          llms.Message :=
                            Some {| schema.Content := vertexai.Content cand |} |} ])
                 w1) as (r & err & w' & Hrun & Hcase).
    exists r, err, w'. split; [exact Hrun|]. destruct err as [e|].
    + destruct Hcase as [Hr Hlater]. split; [done|]. intros later. cbn [app].
      rewrite Chat_Generate_loop_cons. cbn zeta. rewrite Hreply. cbn [fst snd].
      rewrite Hcands. apply Hlater.
    + destruct Hcase as (new & -> & Hlen & Hall). eexists (_ :: new).
      split; [by rewrite <- app_assoc|]. split; [cbn; by rewrite Hlen|].
      by constructor.
Qed.

(** X16: [Chat.Generate] never indexes out of range: it always returns. When it
    returns without error there is one generation per message set, and the
    message of each generation carries the generation's text. *)
Theorem Chat_Generate_one_per_set {World : Type}
    (c : @vertexai.TextClient World)
    (messageSets : list (list schema.ChatMessage))
    (options : list llms.CallOption) (w : World) :
  ∃ r err w',
    vertexai.Chat_Generate c messageSets options w = Some ((r, err), w')
    ∧ (err = None ->
       ∃ generations,
         r = Some generations
         ∧ length generations = length messageSets
         ∧ Forall (fun g => llms.Message g
                            = Some {| schema.Content := llms.Text g |})
             generations).
Proof.
  unfold vertexai.Chat_Generate.
  destruct (llms.StreamingFunc _) as [f|].
  { eexists _, _, _. split; [reflexivity|]. discriminate. }
  destruct (Chat_Generate_loop_outcome c
              (foldl (fun opts opt => opt opts) llms.CallOptions_zero options)
              messageSets [] w) as (r & err & w' & Hrun & Hcase).
  exists r, err, w'. split; [exact Hrun|]. intros ->.
  destruct Hcase as (new & -> & Hlen & Hall). by exists new.
Qed.

(** X17: When [Chat.Generate] returns an error it returns no generation at all,
    and the message sets after the failing one play no part: with any
    further sets appended the run is the same. *)
Theorem Chat_Generate_fails_fast {World : Type}
    (c : @vertexai.TextClient World)
    (messageSets : list (list schema.ChatMessage))
    (options : list llms.CallOption) (w : World)
    (r : slice llms.Generation) (e : error) (w' : World) :
  vertexai.Chat_Generate c messageSets options w = Some ((r, Some e), w') ->
  r = None
  ∧ ∀ later,
      vertexai.Chat_Generate c (messageSets ++ later) options w
      = Some ((r, Some e), w').
Proof.
  unfold vertexai.Chat_Generate.
  destruct (llms.StreamingFunc _) as [f|].
  { intros Hrun. inversion Hrun. done. }
  intros Hrun.
  destruct (Chat_Generate_loop_outcome c
              (foldl (fun opts opt => opt opts) llms.CallOptions_zero options)
              messageSets [] w) as (r0 & err & w0 & Hrun0 & Hcase).
  rewrite Hrun in Hrun0. inversion Hrun0; subst r0 err w0. exact Hcase.
Qed.

(** X18: With a streaming function among the options, [Chat.Generate] and
    [Chat.Call] return [ErrNotImplemented] and leave the client alone. *)
Theorem Chat_streaming_not_implemented {World : Type}
    (c : @vertexai.TextClient World)
    (messageSets : list (list schema.ChatMessage))
    (messages : list schema.ChatMessage)
    (options : list llms.CallOption) (w : World) :
  llms.StreamingFunc
    (foldl (fun opts opt => opt opts) llms.CallOptions_zero options) ≠ None ->
  vertexai.Chat_Generate c messageSets options w
  = Some ((None, Some vertexai.ErrNotImplemented), w)
  ∧ vertexai.Chat_Call c messages options w
    = Some ((None, Some vertexai.ErrNotImplemented), w).
Proof.
  intros Hstream. unfold vertexai.Chat_Call, vertexai.Chat_Generate.
  by destruct (llms.StreamingFunc _).
Qed.

(** X19: Without a streaming function, [Chat.Call] sends the converted messages
    with the options' temperature and returns a message with the content of
    the first candidate; no candidate is [ErrEmptyResponse], and an error of
    the client is returned with a nil message. *)
Theorem Chat_Call_first_candidate {World : Type}
    (c : @vertexai.TextClient World) (messages : list schema.ChatMessage)
    (options : list llms.CallOption) (w : World) :
  let opts := foldl (fun opts opt => opt opts) llms.CallOptions_zero options in
  let reply := vertexai.client_CreateChat c w
                 {| vertexai.ChatTemperature := llms.Temperature opts;
                    vertexai.Messages :=
                      Some <$> (client_message <$> messages) |} in
  llms.StreamingFunc opts = None ->
  vertexai.Chat_Call c messages options w
  = Some (match reply.1.2, vertexai.Candidates reply.1.1 with
          | Some e, _ => (None, Some e)
          | None, [] => (None, Some vertexai.ErrEmptyResponse)
          | None, cand :: _ =>
              (Some {| schema.Content := vertexai.Content cand |}, None)
          end,
          reply.2).
Proof.
  intros opts reply Hstream. unfold vertexai.Chat_Call, vertexai.Chat_Generate.
  fold opts. rewrite Hstream, Chat_Generate_loop_cons. cbn zeta. fold reply.
  destruct reply as [[result [e|]] w']; cbn [fst snd]; [done|].
  by destruct (vertexai.Candidates result).
Qed.

(** ** Further properties of the redis metadata search *)


(** X21: A search made with no option asks for everything, one result from
    offset 0: the command is [FT.SEARCH index * DIALECT 2 LIMIT 0 1]. *)
Theorem NewIndexMetadataSearch_default_command (index : string) :
  index ≠ EmptyString ->
  ∃ s,
    redisvector.NewIndexMetadataSearch index [] = (Some s, None)
    ∧ redisvector.AsMetadataSearchCommand s
      = ["FT.SEARCH"; index; "*"; "DIALECT"; "2"; "LIMIT"; "0"; "1"]%string.
Proof.
  intros Hne. unfold redisvector.NewIndexMetadataSearch.
  apply String.eqb_neq in Hne as ->. eexists. split; reflexivity.
Qed.

(** X22: The command determines the search it was built from, as far as the
    command uses it: two searches with the same command have the same
    index, returned fields and offset, the same filter once an empty
    pre-filter is read as the wildcard, and the same limit once 0 is read
    as 1. *)
Theorem AsMetadataSearchCommand_injective (r1 r2 : redisvector.IndexVectorSearch) :
  redisvector.AsMetadataSearchCommand r1 = redisvector.AsMetadataSearchCommand r2 ->
  redisvector.index r1 = redisvector.index r2
  ∧ redisvector.returns r1 = redisvector.returns r2
  ∧ redisvector.offset r1 = redisvector.offset r2
  ∧ (if (0 <? String.length (redisvector.preFilters r1))%nat
     then redisvector.preFilters r1 else "*"%string)
    = (if (0 <? String.length (redisvector.preFilters r2))%nat
       then redisvector.preFilters r2 else "*"%string)
  ∧ (if (redisvector.limit r1 =? 0)%Z then 1%Z else redisvector.limit r1)
    = (if (redisvector.limit r2 =? 0)%Z then 1%Z else redisvector.limit r2).
Proof.
  rewrite !AsMetadataSearchCommand_shape. intros Heq.
  cbn [app] in Heq. inversion Heq as [[Hidx Hfilter Hrest]]. clear Heq.
  apply app_inj_2 in Hrest as [Hret Htail]; [|reflexivity].
  inversion Htail as [[Hoff Hlim]]. clear Htail.
  apply (inj pretty) in Hoff. apply (inj pretty) in Hlim.
  split; [done|]. split; [|done].
  destruct (redisvector.returns r1) as [|x1 xs1],
    (redisvector.returns r2) as [|x2 xs2]; cbn in Hret; try done.
  by inversion Hret.
Qed.

(** ** Further concrete runs *)

(** An embedder that is out of quota and a backend that is unavailable. *)
Definition failing_embedder : @Embedder unit :=
  {| EmbedDocuments := fun w _ => (([], Some (errors_New "quota")), w);
     EmbedQuery := fun w _ => (([], Some (errors_New "quota")), w) |}.

Definition failing_store : @Store unit :=
  {| embedder := failing_embedder; collectionName := "docs";
     qdrantURL := "http://localhost:6333"; apiKey := "";
     contentKey := "content" |}.

Definition failing_backend : @Backend unit :=
  {| upsertPoints := fun w _ _ _ => ((None, Some (errors_New "unavailable")), w);
     searchPoints := fun h w _ _ _ _ _ =>
       ((None, Some (errors_New "unavailable")), (h, w));
     scroll := fun h w _ _ _ => ((None, Some (errors_New "unavailable")), (h, w)) |}.

(** The state after [drop_bare] has been asked about [bare; hello; bare]. *)
Definition bare_dropped : @State unit :=
  {| heap := demo_heap; world := tt;
     calls := [CallDeduplicater bare true; CallDeduplicater hello false;
               CallDeduplicater bare true] |}.

(** A client that echoes each prompt, and answers a chat with one candidate
    unless the chat has no message. *)
Definition echo_client : @vertexai.TextClient unit :=
  {| vertexai.client_CreateCompletion := fun w req =>
       ((map (fun p => {| vertexai.Text := p |}) (vertexai.Prompts req), None), w);
     vertexai.client_CreateChat := fun w req =>
       match vertexai.Messages req with
       | [] => (({| vertexai.Candidates := [] |},
                 Some (errors_New "no messages")), w)
       | _ => (({| vertexai.Candidates :=
                     [ {| vertexai.Content := "hi"; vertexai.Author := "bot" |} ] |},
                None), w)
       end |}.

Definition question : schema.ChatMessage :=
  {| schema.GetType := schema.ChatMessageTypeHuman;
     schema.GetContent := "how are you"; schema.GetName := None |}.

Definition streaming : llms.CallOption :=
  fun o => {| llms.MaxTokens := llms.MaxTokens o;
              llms.Temperature := llms.Temperature o;
              llms.StreamingFunc := Some (fun _ => None) |}.

Definition users_search : redisvector.IndexVectorSearch :=
  {| redisvector.index := "users"; redisvector.returns := ["age"%string];
     redisvector.preFilters := "@job:(engineer)"; redisvector.offset := 2;
     redisvector.limit := 3 |}.

Lemma AddDocuments_reads_deduplicater_only_witness :
  AddDocuments demo_backend demo_store [hello] [] demo_state
  = AddDocuments demo_backend demo_store [hello]
      [WithScoreThreshold f32_one_and_half] demo_state.
Proof.
  apply (AddDocuments_reads_deduplicater_only demo_backend demo_store [hello]
           [] [WithScoreThreshold f32_one_and_half] demo_state).
  reflexivity.
Defined.

Lemma AddDocuments_embedder_error_witness :
  ∃ st',
    AddDocuments demo_backend failing_store [hello; bare] [] demo_state
    = Some ((None, Some (errors_New "quota")), st')
    ∧ heap st' = heap demo_state
    ∧ world st' = tt
    ∧ ∃ new, calls st' = calls demo_state ++ new
             ∧ Forall (fun c => is_rpc c = false) new.
Proof.
  apply (AddDocuments_embedder_error demo_backend failing_store [hello; bare] []
           demo_state [hello; bare] demo_state []).
  - reflexivity.
  - discriminate.
  - reflexivity.
Defined.


Lemma AddDocuments_fresh_payload_maps_witness :
  ∃ res st' refs payloads,
    AddDocuments demo_backend demo_store [hello; bare] [] demo_state
    = Some (res, st')
    ∧ last (calls st')
      = Some (CallUpsertPoints "http://localhost:6333" [[f32_one]; [f32_one]]
                refs payloads)
    ∧ length refs = 2
    ∧ NoDup refs
    ∧ Forall (fun l => demo_heap !! l = None) refs
    ∧ dom (heap st') = dom demo_heap ∪ list_to_set refs.
Proof.
  apply (AddDocuments_fresh_payload_maps demo_backend demo_store [hello; bare]
           [] demo_state [hello; bare] demo_state [[f32_one]; [f32_one]] tt).
  - reflexivity.
  - discriminate.
  - exact demo_docs_allocated.
  - reflexivity.
  - reflexivity.
Defined.

Lemma SimilaritySearch_embedder_error_witness :
  SimilaritySearch demo_backend failing_store "query" 3 [] demo_state
  = Some ((None, Some (errors_New "quota")),
          called (CallEmbedQuery "query") tt demo_state).
Proof.
  apply (SimilaritySearch_embedder_error demo_backend failing_store "query" 3 []
           demo_state f32_zero []); reflexivity.
Defined.

Lemma SimilaritySearch_returns_search_result_witness :
  ∃ st',
    SimilaritySearch failing_backend demo_store "query" 3
      [WithScoreThreshold f32_half] demo_state
    = Some ((None, Some (errors_New "unavailable")), st')
    ∧ heap st' = demo_heap
    ∧ world st' = tt
    ∧ calls st'
      = [CallEmbedQuery "query";
         CallSearchPoints "http://localhost:6333" [f32_one] 3 f32_half None].
Proof.
  apply (SimilaritySearch_returns_search_result failing_backend demo_store
           "query" 3 [WithScoreThreshold f32_half] demo_state f32_half
           [f32_one] tt); reflexivity.
Defined.

Lemma getScoreThreshold_accepts_iff_witness :
  (getScoreThreshold demo_store
     (getOptions demo_store [WithScoreThreshold f32_one_and_half])).2 = None
  ↔ f32_le f32_zero f32_one_and_half = true
    ∧ f32_le f32_one_and_half f32_one = true.
Proof.
  apply (getScoreThreshold_accepts_iff demo_store
           (getOptions demo_store [WithScoreThreshold f32_one_and_half])).
  discriminate.
Defined.

Lemma SimilaritySearch_nan_threshold_witness :
  getScoreThreshold demo_store
    (getOptions demo_store [WithScoreThreshold S754_nan])
  = (S754_nan, None)
  ∧ ∃ res st' rest,
      SimilaritySearch demo_backend demo_store "query" 3
        [WithScoreThreshold S754_nan] demo_state
      = Some (res, st')
      ∧ calls st' = calls demo_state ++ CallEmbedQuery "query" :: rest.
Proof.
  apply (SimilaritySearch_nan_threshold demo_backend demo_store "query" 3
           [WithScoreThreshold S754_nan] demo_state).
  reflexivity.
Defined.

Lemma deduplicate_idempotent_witness :
  ∃ st2,
    deduplicate demo_store (getOptions demo_store [WithDeduplicater drop_bare])
      [hello] bare_dropped
    = Some ([hello], st2).
Proof.
  apply (deduplicate_idempotent demo_store
           (getOptions demo_store [WithDeduplicater drop_bare])
           drop_bare no_metadata [bare; hello; bare] [hello] demo_state
           bare_dropped); reflexivity.
Defined.

(** The second set has no message and fails; a third set changes nothing. *)
Lemma Chat_Generate_fails_fast_witness :
  (None : slice llms.Generation) = None
  ∧ ∀ later,
      vertexai.Chat_Generate echo_client ([[question]; []] ++ later) [] tt
      = Some ((None, Some (errors_New "no messages")), tt).
Proof.
  apply (Chat_Generate_fails_fast echo_client [[question]; []] [] tt None
           (errors_New "no messages") tt).
  reflexivity.
Defined.

Lemma Chat_streaming_not_implemented_witness :
  vertexai.Chat_Generate echo_client [[question]] [streaming] tt
  = Some ((None, Some vertexai.ErrNotImplemented), tt)
  ∧ vertexai.Chat_Call echo_client [question] [streaming] tt
    = Some ((None, Some vertexai.ErrNotImplemented), tt).
Proof.
  apply (Chat_streaming_not_implemented echo_client [[question]] [question]
           [streaming] tt).
  discriminate.
Defined.

Lemma Chat_Call_first_candidate_witness :
  vertexai.Chat_Call echo_client [question] [] tt
  = Some ((Some {| schema.Content := "hi" |}, None), tt).
Proof.
  apply (Chat_Call_first_candidate echo_client [question] [] tt).
  reflexivity.
Defined.

Lemma NewIndexMetadataSearch_default_command_witness :
  ∃ s,
    redisvector.NewIndexMetadataSearch "users" [] = (Some s, None)
    ∧ redisvector.AsMetadataSearchCommand s
      = ["FT.SEARCH"; "users"; "*"; "DIALECT"; "2"; "LIMIT"; "0"; "1"]%string.
Proof.
  apply (NewIndexMetadataSearch_default_command "users"). discriminate.
Defined.

(** A limit of 0 and a limit of 1 give the same command. *)
Lemma AsMetadataSearchCommand_injective_witness :
  redisvector.index zero_limit
  = redisvector.index (redisvector.set_limit 1 zero_limit)
  ∧ redisvector.returns zero_limit
    = redisvector.returns (redisvector.set_limit 1 zero_limit)
  ∧ redisvector.offset zero_limit
    = redisvector.offset (redisvector.set_limit 1 zero_limit)
  ∧ "@job:(engineer)"%string = "@job:(engineer)"%string
  ∧ 1%Z = 1%Z.
Proof.
  apply (AsMetadataSearchCommand_injective zero_limit
           (redisvector.set_limit 1 zero_limit)).
  reflexivity.
Defined.
